(** * display_agents.py: the README extractor and the console presenter

    A shallow embedding of [src/display_agents.py].  A Python [str] is a
    sequence of Unicode code points, so a string is a [list N] here; slices
    ([s[:70]]), [len] and the width of a format field then count code
    points as Python does.  The dictionary [agents] is an association list
    in insertion order, because both the heading search
    ([for cat in agents.keys()]) and the printing loop
    ([for category, agent_list in agents.items()]) depend on that order.
    [print] is modelled by the list of its arguments, one element per call;
    [stdout_text] gives the text written to standard output.  For what
    one call leaves behind for the next, [Store] has the extractor a
    second time, on a store of objects that [append] changes in place. *)

From Equations Require Import Equations.
From Stdlib Require Import String Ascii.
From Stdlib Require Import List NArith Bool Arith Lia.
Import ListNotations.

Local Open Scope N_scope.

(** ** Python strings *)

Module Py.

Definition char := N.
Definition str := list char.

(** An ASCII literal of the source, as code points. *)
Definition lit (s : string) : str := map N_of_ascii (list_ascii_of_string s).

Definition newline : char := 10.
Definition space : char := 32.

(** [str.isspace] on one code point: the characters [str.strip] removes. *)
Definition is_space (c : char) : bool :=
  ((9 <=? c) && (c <=? 13)) || ((28 <=? c) && (c <=? 32))
  || (c =? 133) || (c =? 160) || (c =? 5760)
  || ((8192 <=? c) && (c <=? 8202))
  || (c =? 8232) || (c =? 8233) || (c =? 8239) || (c =? 8287) || (c =? 12288).

Fixpoint eqb (a b : str) : bool :=
  match a, b with
  | [], [] => true
  | x :: a', y :: b' => (x =? y) && eqb a' b'
  | _, _ => false
  end.

(** [s.startswith(p)] *)
Fixpoint startswith (s p : str) {struct p} : bool :=
  match p with
  | [] => true
  | c :: p' =>
      match s with
      | [] => false
      | x :: s' => (x =? c) && startswith s' p'
      end
  end.

(** [sub in s] *)
Fixpoint contains (sub s : str) : bool :=
  startswith s sub
  || match s with
     | [] => false
     | _ :: s' => contains sub s'
     end.

(** [s.split('\n')]: one more piece than there are newlines. *)
Fixpoint split_nl (s : str) : list str :=
  match s with
  | [] => [[]]
  | c :: s' =>
      let r := split_nl s' in
      if c =? newline then [] :: r else (c :: hd [] r) :: tl r
  end.

Fixpoint lstrip (s : str) : str :=
  match s with
  | [] => []
  | c :: s' => if is_space c then lstrip s' else s
  end.

Fixpoint rstrip (s : str) : str :=
  match s with
  | [] => []
  | c :: s' =>
      match rstrip s' with
      | [] => if is_space c then [] else [c]
      | r => c :: r
      end
  end.

(** [s.strip()] *)
Definition strip (s : str) : str := rstrip (lstrip s).

(** [f"{s:30}"]: a string is left-justified in a field of minimum width. *)
Definition ljust (width : nat) (s : str) : str :=
  s ++ repeat space (width - length s).

(** [c * n] for a one-character string. *)
Definition times (c : char) (n : nat) : str := repeat c n.

(** Truth value of a string. *)
Definition truthy (s : str) : bool :=
  match s with [] => false | _ => true end.

End Py.

Import Py.

(** ** The fragment of [re] the program uses

    The pattern of [parse_readme] is a sequence of literal characters,
    greedy [+] repetitions of a character set, and two capturing groups.
    [run] is a backtracking matcher in the manner of Python's [re]: a
    greedy repetition first takes the longest run of characters of its set
    and gives characters back one at a time while the rest of the pattern
    fails.  [re.match] anchors the match at the start of the string and
    does not require it to reach the end. *)

Module Re.

Inductive cset :=
| NotChar (c : char)   (* [^c] *)
| Dot.                 (* .  : anything but a newline *)

Definition mem (cs : cset) (x : char) : bool :=
  match cs with
  | NotChar c => negb (x =? c)
  | Dot => negb (x =? newline)
  end.

Inductive tok :=
| Lit (c : char)       (* a literal character *)
| Plus (cs : cset)     (* cs+ *)
| Open                 (* ( *)
| Close.               (* ) *)

(** Length of the longest prefix of [s] inside the set. *)
Fixpoint span (cs : cset) (s : str) : nat :=
  match s with
  | [] => 0%nat
  | x :: s' => if mem cs x then S (span cs s') else 0%nat
  end.

(** Try [k] with [n], [n-1], ..., [1] characters; the first success wins. *)
Fixpoint backtrack {A} (k : nat -> option A) (n : nat) : option A :=
  match n with
  | O => None
  | S m =>
      match k n with
      | Some r => Some r
      | None => backtrack k m
      end
  end.

(** The text consumed so far is recorded in the group that is open. *)
Definition record (grp : option str) (t : str) : option str :=
  match grp with
  | Some g => Some (g ++ t)
  | None => None
  end.

Fixpoint run (p : list tok) (s : str) (grp : option str) (caps : list str)
  : option (list str) :=
  match p with
  | [] => Some (rev caps)
  | Lit c :: p' =>
      match s with
      | x :: s' => if x =? c then run p' s' (record grp [x]) caps else None
      | [] => None
      end
  | Plus cs :: p' =>
      backtrack
        (fun k => run p' (skipn k s) (record grp (firstn k s)) caps)
        (span cs s)
  | Open :: p' => run p' s (Some []) caps
  | Close :: p' =>
      match grp with
      | Some g => run p' s None (g :: caps)
      | None => None
      end
  end.

(** [re.match(p, s)]: the captured groups, in order, when [p] matches. *)
Definition rmatch (p : list tok) (s : str) : option (list str) :=
  run p s None [].

(** [m.group(i)] for [i >= 1]. *)
Definition group (i : nat) (m : list str) : str := nth (i - 1) m [].

End Re.

(** ** Constants of the program *)

Definition readme_path : str := lit "/var/www/instructions/README.md".

Definition categories : list str :=
  [ lit "Development & Architecture";
    lit "Language Specialists";
    lit "Infrastructure & Operations";
    lit "Quality & Security";
    lit "Data & AI";
    lit "Specialized Domains";
    lit "Documentation";
    lit "Business & Marketing";
    lit "SEO & Content Optimization" ].

(** Code points of the non-ASCII characters of the source. *)
Definition rocket : char := 128640.     (* U+1F680 *)
Definition books : char := 128218.      (* U+1F4DA *)
Definition bullet : char := 8226.       (* U+2022 *)
Definition bulb : char := 128161.       (* U+1F4A1 *)
Definition package : char := 128230.    (* U+1F4E6 *)
Definition high_voltage : char := 9889. (* U+26A1 *)
Definition brain : char := 129504.      (* U+1F9E0 *)

Definition heading_marker : str := lit "### ".
Definition rocket_marker : str := lit "### " ++ [rocket].
Definition entry_marker : str := lit "- **[".

(** [r'- \*\*\[([^\]]+)\]\([^\)]+\)\*\* - (.+)'] *)
Definition agent_re : list Re.tok :=
  [ Re.Lit 45; Re.Lit 32; Re.Lit 42; Re.Lit 42; Re.Lit 91;
    Re.Open; Re.Plus (Re.NotChar 93); Re.Close;
    Re.Lit 93; Re.Lit 40;
    Re.Plus (Re.NotChar 41);
    Re.Lit 41; Re.Lit 42; Re.Lit 42; Re.Lit 32; Re.Lit 45; Re.Lit 32;
    Re.Open; Re.Plus Re.Dot; Re.Close ].

(** ** The extractor *)

Definition entry := (str * str)%type.
Definition catalog := list (str * list entry).

Definition keys (agents : catalog) : list str := map fst agents.

(** [agents[k]], the empty list standing for a missing key. *)
Fixpoint lookup (agents : catalog) (k : str) : list entry :=
  match agents with
  | [] => []
  | (k', v) :: rest => if Py.eqb k' k then v else lookup rest k
  end.

(** [agents[k].append(e)]: the list under [k] grows at its end, the keys
    and their order stay.  Python raises [KeyError] for a key that is
    absent; the program never asks for one ([current_ok] below), and for
    such a key the dictionary is returned as it is. *)
Fixpoint dict_append (agents : catalog) (k : str) (e : entry) : catalog :=
  match agents with
  | [] => []
  | (k', v) :: rest =>
      if Py.eqb k' k then (k', v ++ [e]) :: rest
      else (k', v) :: dict_append rest k e
  end.

(** The dictionary literal of lines 14-24. *)
Definition initial_agents : catalog := map (fun c => (c, [])) categories.

(** Loop state: the dictionary and [current_category]. *)
Definition state := (catalog * option str)%type.

Definition initial_state : state := (initial_agents, None).

(** The test of line 29. *)
Definition is_heading (line : str) : bool :=
  startswith line heading_marker && negb (startswith line rocket_marker).

(** The inner loop of lines 30-33: the first key contained in the line. *)
Definition heading_category (agents : catalog) (line : str) : option str :=
  find (fun cat => contains cat line) (keys agents).

(** One iteration of the loop over the lines (lines 29-40). *)
Definition step (st : state) (line : str) : state :=
  let '(agents, current_category) := st in
  if is_heading line then
    match heading_category agents line with
    | Some cat => (agents, Some cat)
    | None => st
    end
  else
    match current_category with
    | Some cur =>
        if truthy cur && startswith (strip line) entry_marker then
          match Re.rmatch agent_re (strip line) with
          | Some agent_match =>
              let agent_name := Re.group 1 agent_match in
              let agent_desc := Re.group 2 agent_match in
              (dict_append agents cur (agent_name, agent_desc),
               current_category)
          | None => st
          end
        else st
    | None => st
    end.

Definition run_lines (st : state) (lines : list str) : state :=
  fold_left step lines st.

(** Lines 14-42, on the text read from the file. *)
Definition parse_content (content : str) : catalog :=
  fst (run_lines initial_state (split_nl content)).

(** The files the program can see: the text [f.read()] returns for a path
    that exists (the decoded text of a readable file), [None] for a path
    that does not. *)
Definition filesystem := str -> option str.

(** [parse_readme()]: [None] is Python's [None]. *)
Definition parse_readme (fs : filesystem) : option catalog :=
  match fs readme_path with
  | None => None
  | Some content => Some (parse_content content)
  end.

(** ** The extractor on the object store

    What one process keeps between two calls of [parse_readme] is its
    objects.  Here the dictionary and its lists are objects of a store,
    reached by address: the dictionary literal of lines 14-24 allocates a
    list for every key and then the dictionary, [append] changes a list
    where it lies, and [return agents] hands out the address of the
    dictionary.  The file is opened for reading only. *)

Module Store.

Inductive obj :=
| ListObj (elements : list entry)     (* a list of pairs *)
| DictObj (items : list (str * nat)). (* keys, and where their values lie *)

Definition heap := list obj.

Record world := World { files : filesystem; objects : heap }.

(** A new object gets the next address. *)
Definition alloc (h : heap) (o : obj) : heap * nat := (h ++ [o], length h).

Fixpoint update (h : heap) (a : nat) (o : obj) : heap :=
  match h with
  | [] => []
  | x :: t =>
      match a with
      | O => o :: t
      | S a' => x :: update t a' o
      end
  end.

(** [k: []] for every key, in the order of the literal. *)
Fixpoint alloc_lists (ks : list str) (h : heap) : heap * list (str * nat) :=
  match ks with
  | [] => (h, [])
  | k :: ks' =>
      let '(h1, a) := alloc h (ListObj []) in
      let '(h2, items) := alloc_lists ks' h1 in
      (h2, (k, a) :: items)
  end.

(** Lines 14-24. *)
Definition new_agents (h : heap) : heap * nat :=
  let '(h1, items) := alloc_lists categories h in
  alloc h1 (DictObj items).

(** [d[k]]: the address of the value, [None] where Python raises. *)
Fixpoint getitem (items : list (str * nat)) (k : str) : option nat :=
  match items with
  | [] => None
  | (k', a) :: rest => if Py.eqb k' k then Some a else getitem rest k
  end.

(** [l.append(e)] on the list at address [a]. *)
Definition list_append (h : heap) (a : nat) (e : entry) : heap :=
  match nth_error h a with
  | Some (ListObj l) => update h a (ListObj (l ++ [e]))
  | _ => h
  end.

(** One iteration of the loop (lines 29-40); [agents] is the address of
    the dictionary.  Where Python would raise, the store is left as it
    is. *)
Definition step (agents : nat) (st : heap * option str) (line : str)
  : heap * option str :=
  let '(h, current_category) := st in
  match nth_error h agents with
  | Some (DictObj items) =>
      if is_heading line then
        match find (fun cat => contains cat line) (map fst items) with
        | Some cat => (h, Some cat)
        | None => st
        end
      else
        match current_category with
        | Some cur =>
            if truthy cur && startswith (strip line) entry_marker then
              match Re.rmatch agent_re (strip line) with
              | Some agent_match =>
                  let agent_name := Re.group 1 agent_match in
                  let agent_desc := Re.group 2 agent_match in
                  match getitem items cur with
                  | Some a =>
                      (list_append h a (agent_name, agent_desc),
                       current_category)
                  | None => st
                  end
              | None => st
              end
            else st
        | None => st
        end
  | _ => st
  end.

(** [parse_readme()] in a world: the world afterwards and the address
    returned, [None] for Python's [None]. *)
Definition parse_readme (w : world) : world * option nat :=
  match files w readme_path with
  | None => (w, None)
  | Some content =>
      let '(h1, agents) := new_agents (objects w) in
      let '(h2, _) := fold_left (step agents) (split_nl content) (h1, None) in
      (World (files w) h2, Some agents)
  end.

(** The list at an address, and the dictionary at an address with its
    lists: what a caller reads through the reference. *)
Definition list_at (h : heap) (a : nat) : list entry :=
  match nth_error h a with
  | Some (ListObj l) => l
  | _ => []
  end.

Definition dict_at (h : heap) (d : nat) : option catalog :=
  match nth_error h d with
  | Some (DictObj items) =>
      Some (map (fun item => (fst item, list_at h (snd item))) items)
  | _ => None
  end.

(** Where a call puts its objects: behind the objects [pre] there were,
    the nine lists and then the dictionary that refers to them. *)
Definition layout (pre post : heap) (ls : list (list entry)) : heap :=
  pre ++ map ListObj ls
  ++ DictObj (combine categories (seq (length pre) 9)) :: post.

End Store.

(** ** The presenter *)

Definition sentinel_message : str := lit "Unable to load agent information.".

(** [f"  * {agent_name:30} {agent_desc[:70]}"], the star being U+2022. *)
Definition entry_first_line (agent_name agent_desc : str) : str :=
  [space; space; bullet; space] ++ ljust 30 agent_name ++ [space]
  ++ firstn 70 agent_desc.

(** [f"    {' ':30} {remaining[:70]}"] *)
Definition continuation_line (remaining : str) : str :=
  lit "    " ++ ljust 30 [space] ++ [space] ++ firstn 70 remaining.

(** The [while remaining:] loop of lines 62-64.  Each turn drops 70
    characters of a non-empty string, so the loop ends. *)
Equations? wrap_loop (remaining : str) : list str
  by wf (length remaining) lt :=
  wrap_loop [] := [];
  wrap_loop (c :: r) :=
    continuation_line (c :: r) :: wrap_loop (skipn 70 (c :: r)).
Proof.
  pose proof (length_skipn 70 (c :: r)) as H. simpl in *. lia.
Qed.

(** Lines 59-64: the calls of [print] for one entry. *)
Definition entry_lines (e : entry) : list str :=
  let '(agent_name, agent_desc) := e in
  entry_first_line agent_name agent_desc
  :: (if (70 <? length agent_desc)%nat
      then wrap_loop (skipn 70 agent_desc)
      else []).

(** Lines 55-64: a category with no entry prints nothing. *)
Definition category_lines (item : str * list entry) : list str :=
  let '(category, agent_list) := item in
  match agent_list with
  | [] => []
  | _ =>
      (newline :: lit "### " ++ category)
      :: times 45 40
      :: flat_map entry_lines agent_list
  end.

Definition title_line : str :=
  [newline; books] ++ lit " Available Claude Code Agents (75 total)"
  ++ [newline].

Definition rule_line : str := times 61 80.

Definition closing_lines : list str :=
  [ newline :: rule_line;
    [newline; bulb]
    ++ lit " Usage: Mention an agent by name or let Claude auto-select based on context";
    lit "   Example: 'Use code-reviewer to check my changes'";
    [newline; package] ++ lit " Model Distribution:";
    lit "   " ++ [bullet; space; rocket] ++ lit " Haiku (fast): 16 agents";
    lit "   " ++ [bullet; space; high_voltage]
    ++ lit " Sonnet (balanced): 44 agents";
    lit "   " ++ [bullet; space; brain] ++ lit " Opus (powerful): 15 agents";
    [] ].

(** Lines 51-73: what is printed for a dictionary that is not falsy. *)
Definition report (agents : catalog) : list str :=
  title_line :: rule_line :: flat_map category_lines agents ++ closing_lines.

(** [display_agents()]: the arguments of the calls of [print], in order.
    [not agents] holds for [None] and for an empty dictionary. *)
Definition display_agents (fs : filesystem) : list str :=
  match parse_readme fs with
  | None => [sentinel_message]
  | Some [] => [sentinel_message]
  | Some agents => report agents
  end.

(** Standard output: [print] ends every argument with a newline. *)
Definition stdout_text (calls : list str) : str :=
  flat_map (fun s => s ++ [newline]) calls.

(** ** Vocabulary of the statements *)

(** The text [- **[name](link)** - desc]. *)
Definition entry_text (name link desc : str) : str :=
  lit "- **[" ++ name ++ lit "](" ++ link ++ lit ")** - " ++ desc.

Definition no_char (c : char) (s : str) : Prop := Forall (fun x => x <> c) s.

(** [current_category], once set, is one of the keys. *)
Definition current_ok (st : state) : Prop :=
  forall c, snd st = Some c -> In c (keys (fst st)).

(** A heading that sets [current_category], judged on the line alone. *)
Definition recognized_heading (line : str) : bool :=
  is_heading line
  && match heading_category initial_agents line with
     | Some _ => true
     | None => false
     end.

(** The test of line 35 on the line alone. *)
Definition entry_shaped (line : str) : bool :=
  startswith (strip line) entry_marker.

(** No newline in the name or the description of any entry. *)
Definition one_line (e : entry) : Prop :=
  no_char newline (fst e) /\ no_char newline (snd e).

Definition entries_one_line (agents : catalog) : Prop :=
  Forall (fun item => Forall one_line (snd item)) agents.

(** Lines 35-39 on the line alone: the pair an entry line yields. *)
Definition line_entry (line : str) : option entry :=
  if startswith (strip line) entry_marker then
    match Re.rmatch agent_re (strip line) with
    | Some agent_match =>
        Some (Re.group 1 agent_match, Re.group 2 agent_match)
    | None => None
    end
  else None.

(** The pairs the lines of a section yield, in the order of the lines. *)
Definition section_entries (body : list str) : list entry :=
  flat_map (fun l => match line_entry l with
                     | Some e => [e]
                     | None => []
                     end) body.

(** The number of entries of a dictionary, all categories together. *)
Definition total_entries (agents : catalog) : nat :=
  length (flat_map snd agents).

(** ['\n'.join(lines)] *)
Fixpoint join_nl (lines : list str) : str :=
  match lines with
  | [] => []
  | l :: rest =>
      match rest with
      | [] => l
      | _ => l ++ newline :: join_nl rest
      end
  end.

(** What every stored entry looks like. *)
Definition wellformed_entry (e : entry) : Prop :=
  (fst e <> [] /\ no_char 93 (fst e) /\ no_char newline (fst e))
  /\ (snd e <> [] /\ no_char newline (snd e)
      /\ is_space (last (snd e) 0) = false).

(** Truth value of a list ([if agent_list:]). *)
Definition truthy_list {A} (l : list A) : bool :=
  match l with [] => false | _ => true end.

(** The sub-banner of a category, and the calls of [print] that are one. *)
Definition banner (category : str) : str := newline :: lit "### " ++ category.

Definition is_banner (l : str) : bool := startswith l (newline :: lit "### ").

(** Sample texts. *)
Definition orphan_sample : str :=
  lit "# Agents" ++ [newline]
  ++ lit "- **[code-reviewer](link)** - Reviews code for quality."
  ++ [newline] ++ lit "### Documentation" ++ [newline] ++ lit "text".

Definition review_sample : str :=
  lit "### Development & Architecture" ++ [newline]
  ++ lit "  - **[code-reviewer](link)** - Reviews code for quality.  "
  ++ [newline]
  ++ lit "- **[architect](docs/a.md)** - Designs [systems] (all).".

Definition section_sample : list str :=
  [ lit "### Tools for Data & AI";
    lit "Agents for data work.";
    lit "- **[data-engineer](d.md)** - Builds pipelines.";
    lit "### Notes";
    lit "  - **[ml-engineer](m.md)** - Ships models.  ";
    lit "- **[broken](m.md) - no closing stars" ].

Definition shuffled_sample : str :=
  lit "### Documentation" ++ [newline]
  ++ lit "- **[docs-architect](a.md)** - Writes manuals." ++ [newline]
  ++ lit "### Language Specialists" ++ [newline]
  ++ lit "- **[python-pro](p.md)** - Writes Python.".

Definition prose_sample : str :=
  lit "# Agents" ++ [newline]
  ++ lit "- **[code-reviewer](link)** - Reviews code for quality."
  ++ [newline] ++ lit "### Overview" ++ [newline] ++ lit "text".

(** * Properties *)

(** ** Strings *)

Module PyFacts.

Lemma eqb_refl (a : str) : Py.eqb a a = true.
Proof.
  induction a as [|x a IH]; simpl; [reflexivity|].
  now rewrite N.eqb_refl, IH.
Qed.

Lemma eqb_eq (a b : str) : Py.eqb a b = true <-> a = b.
Proof.
  split; [|intros ->; apply eqb_refl].
  revert b; induction a as [|x a IH]; intros [|y b]; simpl;
    try discriminate; [reflexivity|].
  intros H. apply andb_true_iff in H as [Hx Hr].
  apply N.eqb_eq in Hx. apply IH in Hr. congruence.
Qed.

Lemma eqb_neq (a b : str) : a <> b -> Py.eqb a b = false.
Proof.
  intros H. destruct (Py.eqb a b) eqn:E; [|reflexivity].
  apply eqb_eq in E. contradiction.
Qed.

Lemma startswith_app (p s : str) : startswith (p ++ s) p = true.
Proof.
  induction p as [|c p IH]; simpl; [reflexivity|].
  now rewrite N.eqb_refl, IH.
Qed.

(** A string that starts with [p] is [p] followed by something. *)
Lemma startswith_inv (s p : str) :
  startswith s p = true -> exists t, s = p ++ t.
Proof.
  revert s; induction p as [|c p IH]; intros s H; simpl in *.
  - now exists s.
  - destruct s as [|x s]; [discriminate|].
    apply andb_true_iff in H as [Hx Hr].
    apply N.eqb_eq in Hx. destruct (IH _ Hr) as [t ->].
    exists t. now subst.
Qed.

Lemma lstrip_spaces (lead s : str) :
  Forall (fun c => is_space c = true) lead -> lstrip (lead ++ s) = lstrip s.
Proof.
  induction 1 as [|c lead Hc _ IH]; simpl; [reflexivity|].
  now rewrite Hc.
Qed.

Lemma lstrip_nonspace (c : char) (s : str) :
  is_space c = false -> lstrip (c :: s) = c :: s.
Proof. intros H; simpl; now rewrite H. Qed.

Lemma rstrip_nonspace (c : char) (s : str) :
  is_space c = false -> rstrip (c :: s) = c :: rstrip s.
Proof.
  intros H; simpl. rewrite H. now destruct (rstrip s).
Qed.

Lemma rstrip_spaces (trail : str) :
  Forall (fun c => is_space c = true) trail -> rstrip trail = [].
Proof.
  induction 1 as [|c trail Hc _ IH]; simpl; [reflexivity|].
  now rewrite IH, Hc.
Qed.

(** Trailing white space is removed behind the last character that is
    not white space, and nothing before it. *)
Lemma rstrip_app (a : str) (x : char) (b : str) :
  is_space x = false -> rstrip (a ++ x :: b) = a ++ x :: rstrip b.
Proof.
  intros Hx. induction a as [|y a IH]; simpl app.
  - now apply rstrip_nonspace.
  - simpl. rewrite IH. now destruct a.
Qed.

Lemma strip_around (lead a : str) (x : char) (b : str) :
  Forall (fun c => is_space c = true) lead ->
  is_space (hd x a) = false ->
  is_space x = false ->
  strip (lead ++ a ++ x :: b) = a ++ x :: rstrip b.
Proof.
  intros Hl Hh Hx. unfold strip.
  rewrite lstrip_spaces by assumption.
  assert (E : lstrip (a ++ x :: b) = a ++ x :: b).
  { destruct a as [|y a]; simpl app; now apply lstrip_nonspace. }
  rewrite E. now apply rstrip_app.
Qed.

(** A line that begins with a character that is not white space keeps
    that character in front when it is stripped. *)
Lemma strip_head (c : char) (s : str) :
  is_space c = false -> strip (c :: s) = c :: rstrip s.
Proof.
  intros H. unfold strip. rewrite lstrip_nonspace by assumption.
  now apply rstrip_nonspace.
Qed.

Lemma split_nl_nonempty (s : str) : split_nl s <> [].
Proof.
  destruct s as [|c s]; simpl; [discriminate|].
  destruct (c =? newline); discriminate.
Qed.

(** No piece of [s.split('\n')] holds a newline. *)
Lemma split_nl_no_newline (s : str) :
  Forall (Forall (fun c => c <> newline)) (split_nl s).
Proof.
  induction s as [|c s IH]; simpl.
  - repeat constructor.
  - destruct (c =? newline) eqn:E.
    + constructor; [constructor | exact IH].
    + apply N.eqb_neq in E.
      destruct (split_nl s) as [|l ls]; simpl.
      * repeat constructor; assumption.
      * inversion IH; subst. constructor; [constructor|]; assumption.
Qed.

End PyFacts.

(** ** The matcher *)

Module ReFacts.

Import Re.

Lemma backtrack_hit {A} (k : nat -> option A) (n : nat) (r : A) :
  n <> 0%nat -> k n = Some r -> backtrack k n = Some r.
Proof.
  destruct n as [|m]; [congruence|]. intros _ H. simpl. now rewrite H.
Qed.

Lemma backtrack_inv {A} (k : nat -> option A) (n : nat) (r : A) :
  backtrack k n = Some r ->
  exists j, (1 <= j <= n)%nat /\ k j = Some r.
Proof.
  induction n as [|m IH]; simpl; [discriminate|].
  destruct (k (S m)) eqn:E.
  - intros [= ->]. exists (S m). split; [lia | assumption].
  - intros H. destruct (IH H) as (j & Hj & Hk).
    exists j. split; [lia | assumption].
Qed.

Lemma span_take (cs : cset) (s : str) (j : nat) :
  (j <= span cs s)%nat ->
  length (firstn j s) = j /\ Forall (fun x => mem cs x = true) (firstn j s).
Proof.
  revert j; induction s as [|x s IH]; intros j Hj; simpl in Hj.
  - assert (j = 0%nat) as -> by lia. now split.
  - destruct j as [|j]; [now split|].
    destruct (mem cs x) eqn:E; [|lia].
    destruct (IH j) as [Hl Hf]; [lia|].
    simpl. split; [now rewrite Hl | now constructor].
Qed.

Lemma span_app (cs : cset) (a b : str) :
  Forall (fun x => mem cs x = true) a ->
  mem cs (hd newline b) = false \/ b = [] ->
  span cs (a ++ b) = length a.
Proof.
  intros Ha Hb. induction Ha as [|x a Hx _ IH]; simpl.
  - destruct b as [|y b]; [reflexivity|].
    destruct Hb as [Hb|Hb]; [|discriminate]. simpl in *. now rewrite Hb.
  - now rewrite Hx, IH.
Qed.

Lemma run_lit (c : char) (p : list tok) (s : str) g caps :
  run (Lit c :: p) (c :: s) g caps = run p s (record g [c]) caps.
Proof. simpl. now rewrite N.eqb_refl. Qed.

Lemma run_lit_inv (c : char) (p : list tok) (s : str) g caps r :
  run (Lit c :: p) s g caps = Some r ->
  exists s', s = c :: s' /\ run p s' (record g [c]) caps = Some r.
Proof.
  simpl. destruct s as [|x s]; [discriminate|].
  destruct (x =? c) eqn:E; [|discriminate].
  apply N.eqb_eq in E; subst. intros H. now exists s.
Qed.

Lemma run_open (p : list tok) (s : str) g caps :
  run (Open :: p) s g caps = run p s (Some []) caps.
Proof. reflexivity. Qed.

Lemma run_close (p : list tok) (s : str) (g : str) caps :
  run (Close :: p) s (Some g) caps = run p s None (g :: caps).
Proof. reflexivity. Qed.

Lemma run_end (s : str) g caps : run [] s g caps = Some (rev caps).
Proof. reflexivity. Qed.

(** The greedy choice: when the rest of the pattern accepts what follows
    the longest run, that is the match. *)
Lemma run_plus_take (cs : cset) (p : list tok) (a b : str) g caps r :
  a <> [] ->
  Forall (fun x => mem cs x = true) a ->
  mem cs (hd newline b) = false \/ b = [] ->
  run p b (record g a) caps = Some r ->
  run (Plus cs :: p) (a ++ b) g caps = Some r.
Proof.
  intros Hne Ha Hb H. cbn [run]. rewrite (span_app cs a b Ha Hb).
  apply backtrack_hit.
  - destruct a; [congruence | discriminate].
  - rewrite skipn_app, firstn_app, Nat.sub_diag, skipn_all, firstn_all.
    simpl. now rewrite app_nil_r.
Qed.

(** Whatever the repetition ends up with is a non-empty run of the set. *)
Lemma run_plus_inv (cs : cset) (p : list tok) (s : str) g caps r :
  run (Plus cs :: p) s g caps = Some r ->
  exists a b, s = a ++ b /\ a <> [] /\
    Forall (fun x => mem cs x = true) a /\
    run p b (record g a) caps = Some r.
Proof.
  cbn [run]. intros H. apply backtrack_inv in H as (j & Hj & H).
  destruct (span_take cs s j) as [Hl Hf]; [lia|].
  exists (firstn j s), (skipn j s). repeat split.
  - symmetry. apply firstn_skipn.
  - intros E. rewrite E in Hl. simpl in Hl. lia.
  - assumption.
  - assumption.
Qed.

(** A string is cut in one way only at the first occurrence of [c]. *)
Lemma cut_unique (c : char) (a a' b b' : str) :
  Forall (fun x => x <> c) a ->
  Forall (fun x => x <> c) a' ->
  a ++ c :: b = a' ++ c :: b' ->
  a = a' /\ b = b'.
Proof.
  intros Ha; revert a'. induction Ha as [|x a Hx _ IH]; intros a' Ha' E.
  - destruct Ha' as [|y a' Hy _]; simpl in E.
    + now injection E.
    + injection E as E _. congruence.
  - destruct Ha' as [|y a' Hy Ha']; simpl in E.
    + injection E as E _. congruence.
    + injection E as -> E. destruct (IH _ Ha' E) as [-> ->]. now split.
Qed.

Lemma mem_not_char (c : char) (a : str) :
  Forall (fun x => mem (NotChar c) x = true) a <->
  Forall (fun x => x <> c) a.
Proof.
  split; intros H; induction H as [|x a Hx _ IH]; constructor; trivial.
  - simpl in Hx. apply negb_true_iff in Hx. now apply N.eqb_neq.
  - simpl. apply negb_true_iff. now apply N.eqb_neq.
Qed.

Lemma mem_dot (a : str) :
  Forall (fun x => mem Dot x = true) a <->
  Forall (fun x => x <> newline) a.
Proof. exact (mem_not_char newline a). Qed.

End ReFacts.

(** ** The entry pattern *)

Lemma agent_re_complete (name link desc : str) :
  name <> [] -> no_char 93 name ->
  link <> [] -> no_char 41 link ->
  desc <> [] -> no_char newline desc ->
  Re.rmatch agent_re (entry_text name link desc) = Some [name; desc].
Proof.
  intros Hn Hn' Hl Hl' Hd Hd'.
  unfold Re.rmatch, agent_re, entry_text.
  change (lit "- **[") with [45; 32; 42; 42; 91].
  change (lit "](") with [93; 40].
  change (lit ")** - ") with [41; 42; 42; 32; 45; 32].
  cbn [app]. rewrite !ReFacts.run_lit, ReFacts.run_open.
  apply ReFacts.run_plus_take; trivial.
  { now apply ReFacts.mem_not_char. }
  { left; reflexivity. }
  cbn [Re.record app]. rewrite ReFacts.run_close, !ReFacts.run_lit.
  apply ReFacts.run_plus_take; trivial.
  { now apply ReFacts.mem_not_char. }
  { left; reflexivity. }
  cbn [Re.record]. rewrite !ReFacts.run_lit, ReFacts.run_open.
  rewrite <- (app_nil_r desc).
  apply ReFacts.run_plus_take; trivial.
  { now apply ReFacts.mem_dot. }
  { now right. }
  simpl. now rewrite app_nil_r.
Qed.

Lemma agent_re_sound (s : str) (m : list str) :
  Re.rmatch agent_re s = Some m ->
  exists name link desc rest,
    s = entry_text name link desc ++ rest /\ m = [name; desc] /\
    (name <> [] /\ no_char 93 name) /\
    (link <> [] /\ no_char 41 link) /\
    (desc <> [] /\ no_char newline desc).
Proof.
  unfold Re.rmatch, agent_re. intros H.
  do 5 (apply ReFacts.run_lit_inv in H as (? & -> & H)).
  rewrite ReFacts.run_open in H.
  apply ReFacts.run_plus_inv in H as (name & s1 & -> & Hn & Hn' & H).
  cbn [Re.record app] in H. rewrite ReFacts.run_close in H.
  do 2 (apply ReFacts.run_lit_inv in H as (? & -> & H)).
  apply ReFacts.run_plus_inv in H as (link & s2 & -> & Hl & Hl' & H).
  do 6 (apply ReFacts.run_lit_inv in H as (? & -> & H)).
  rewrite ReFacts.run_open in H.
  apply ReFacts.run_plus_inv in H as (desc & rest & -> & Hd & Hd' & H).
  cbn [Re.record app] in H.
  rewrite ReFacts.run_close, ReFacts.run_end in H.
  cbn [rev app] in H. injection H as <-.
  exists name, link, desc, rest. unfold entry_text.
  apply ReFacts.mem_not_char in Hn', Hl'. apply ReFacts.mem_dot in Hd'.
  repeat split; trivial.
  change (lit "- **[") with [45; 32; 42; 42; 91].
  change (lit "](") with [93; 40].
  change (lit ")** - ") with [41; 42; 42; 32; 45; 32].
  now rewrite <- !app_assoc.
Qed.

(** ** The dictionary *)

Section Dictionary.

Variables (k : str) (e : entry).

Lemma keys_dict_append (agents : catalog) :
  keys (dict_append agents k e) = keys agents.
Proof.
  induction agents as [|[k' v] rest IH]; simpl; [reflexivity|].
  destruct (Py.eqb k' k); simpl; [reflexivity | now f_equal].
Qed.

Lemma lookup_dict_append_same (agents : catalog) :
  In k (keys agents) ->
  lookup (dict_append agents k e) k = lookup agents k ++ [e].
Proof.
  induction agents as [|[k' v] rest IH]; simpl; [contradiction|].
  intros H. destruct (Py.eqb k' k) eqn:E; simpl; rewrite E; [reflexivity|].
  destruct H as [H|H]; [|now apply IH].
  subst. now rewrite PyFacts.eqb_refl in E.
Qed.

Lemma lookup_dict_append_other (agents : catalog) (k0 : str) :
  k0 <> k -> lookup (dict_append agents k e) k0 = lookup agents k0.
Proof.
  intros Hne. induction agents as [|[k' v] rest IH]; simpl; [reflexivity|].
  destruct (Py.eqb k' k) eqn:E; simpl.
  - apply PyFacts.eqb_eq in E; subst.
    now rewrite PyFacts.eqb_neq by congruence.
  - now rewrite IH.
Qed.

Lemma lookup_dict_append_grows (agents : catalog) (k0 : str) :
  exists extra,
    lookup (dict_append agents k e) k0 = lookup agents k0 ++ extra.
Proof.
  induction agents as [|[k' v] rest IH]; simpl; [now exists []|].
  destruct (Py.eqb k' k) eqn:E; simpl.
  - destruct (Py.eqb k' k0); [now exists [e] | exists []].
    now rewrite app_nil_r.
  - destruct (Py.eqb k' k0); [exists [] | exact IH].
    now rewrite app_nil_r.
Qed.

End Dictionary.

(** ** One line at a time *)

Lemma categories_truthy : Forall (fun c => truthy c = true) categories.
Proof. repeat constructor. Qed.

Lemma keys_initial : keys initial_agents = categories.
Proof. reflexivity. Qed.

Lemma heading_category_in (agents : catalog) (line cat : str) :
  heading_category agents line = Some cat ->
  In cat (keys agents) /\ contains cat line = true.
Proof. intros H. now apply find_some in H. Qed.

(** Only [append] touches the dictionary, so its keys never change. *)
Lemma keys_step (st : state) (line : str) :
  keys (fst (step st line)) = keys (fst st).
Proof.
  destruct st as [agents cur]. unfold step.
  destruct (is_heading line).
  - now destruct (heading_category agents line).
  - destruct cur as [c|]; [|reflexivity].
    destruct (truthy c && startswith (strip line) entry_marker);
      [|reflexivity].
    destruct (Re.rmatch agent_re (strip line)); [|reflexivity].
    apply keys_dict_append.
Qed.

Lemma keys_run_lines (lines : list str) (st : state) :
  keys (fst (run_lines st lines)) = keys (fst st).
Proof.
  unfold run_lines.
  revert st; induction lines as [|l lines IH]; intros st; simpl;
    [reflexivity|].
  now rewrite IH, keys_step.
Qed.

Lemma current_ok_step (st : state) (line : str) :
  current_ok st -> current_ok (step st line).
Proof.
  intros Hok c. rewrite keys_step. destruct st as [agents cur].
  unfold step. destruct (is_heading line).
  - destruct (heading_category agents line) as [cat|] eqn:E.
    + simpl. intros [= <-]. now apply heading_category_in in E.
    + apply Hok.
  - destruct cur as [c0|]; [|apply Hok].
    destruct (truthy c0 && startswith (strip line) entry_marker);
      [|apply Hok].
    destruct (Re.rmatch agent_re (strip line)); apply Hok.
Qed.

Lemma current_ok_run_lines (lines : list str) (st : state) :
  current_ok st -> current_ok (run_lines st lines).
Proof.
  unfold run_lines.
  revert st; induction lines as [|l lines IH]; intros st H; simpl;
    [assumption|].
  apply IH. now apply current_ok_step.
Qed.

Lemma current_ok_initial : current_ok initial_state.
Proof. intros c; discriminate. Qed.

(** Every list of the dictionary only grows, and at its end. *)
Lemma step_grows (st : state) (line k : str) :
  exists extra,
    lookup (fst (step st line)) k = lookup (fst st) k ++ extra.
Proof.
  assert (Same : exists extra, lookup (fst st) k = lookup (fst st) k ++ extra).
  { exists []. now rewrite app_nil_r. }
  destruct st as [agents cur]. unfold step.
  destruct (is_heading line).
  - now destruct (heading_category agents line).
  - destruct cur as [c|]; [|exact Same].
    destruct (truthy c && startswith (strip line) entry_marker);
      [|exact Same].
    destruct (Re.rmatch agent_re (strip line)); [|exact Same].
    apply lookup_dict_append_grows.
Qed.

Lemma run_lines_grows (lines : list str) (st : state) (k : str) :
  exists extra,
    lookup (fst (run_lines st lines)) k = lookup (fst st) k ++ extra.
Proof.
  unfold run_lines.
  revert st; induction lines as [|l lines IH]; intros st; simpl.
  - exists []. now rewrite app_nil_r.
  - destruct (IH (step st l)) as [x Hx].
    destruct (step_grows st l k) as [y Hy].
    exists (y ++ x). now rewrite Hx, Hy, app_assoc.
Qed.

Lemma run_lines_app (st : state) (l1 l2 : list str) :
  run_lines st (l1 ++ l2) = run_lines (run_lines st l1) l2.
Proof. apply fold_left_app. Qed.

(** A line that does not begin with [#] is no heading. *)
Lemma not_heading (line : str) : hd 0 line <> 35 -> is_heading line = false.
Proof.
  intros H. unfold is_heading, heading_marker.
  change (lit "### ") with [35; 35; 35; 32].
  destruct line as [|x line]; [reflexivity|]. simpl in *.
  apply N.eqb_neq in H. now rewrite H.
Qed.

(** A heading, stripped, still begins with [#]. *)
Lemma heading_strip (line : str) :
  startswith line heading_marker = true ->
  exists t, strip line = 35 :: t.
Proof.
  intros H. apply PyFacts.startswith_inv in H as [t ->].
  change heading_marker with [35; 35; 35; 32]. cbn [app].
  rewrite PyFacts.strip_head by reflexivity. eauto.
Qed.

Lemma heading_not_entry (line : str) :
  startswith line heading_marker = true ->
  startswith (strip line) entry_marker = false.
Proof.
  intros H. apply heading_strip in H as [t ->]. reflexivity.
Qed.

Lemma Forall_lstrip (P : char -> Prop) (s : str) :
  Forall P s -> Forall P (lstrip s).
Proof.
  induction 1 as [|c s Hc Hs IH]; simpl; [constructor|].
  destruct (is_space c); [assumption | now constructor].
Qed.

Lemma Forall_rstrip (P : char -> Prop) (s : str) :
  Forall P s -> Forall P (rstrip s).
Proof.
  induction 1 as [|c s Hc Hs IH]; simpl; [constructor|].
  destruct (rstrip s).
  - destruct (is_space c); repeat constructor; assumption.
  - now constructor.
Qed.

Lemma Forall_strip (P : char -> Prop) (s : str) :
  Forall P s -> Forall P (strip s).
Proof. intros H. now apply Forall_rstrip, Forall_lstrip. Qed.

Lemma categories_nodup : NoDup categories.
Proof.
  assert (D : forall a b : str, Py.eqb a b = false -> a <> b).
  { intros a b E ->. now rewrite PyFacts.eqb_refl in E. }
  unfold categories.
  repeat (constructor;
          [simpl; intros H;
           repeat (destruct H as [H|H];
                   [revert H; apply D; vm_compute; reflexivity|]);
           exact H|]).
  constructor.
Qed.

Lemma Forall_by_existsb {A} (f : A -> bool) (xs : list A) :
  existsb f xs = false -> Forall (fun x => f x = false) xs.
Proof.
  induction xs as [|x xs IH]; simpl; [constructor|].
  intros H. apply orb_false_iff in H as [H1 H2]. constructor; auto.
Qed.

Lemma find_first {A} (f : A -> bool) (before : list A) (x : A)
      (after : list A) :
  Forall (fun y => f y = false) before ->
  f x = true ->
  find f (before ++ x :: after) = Some x.
Proof.
  intros Hb Hx. induction Hb as [|y before Hy _ IH]; simpl.
  - now rewrite Hx.
  - now rewrite Hy.
Qed.

Lemma rocket_is_heading_marked (line : str) :
  startswith line rocket_marker = true ->
  startswith line heading_marker = true.
Proof.
  intros H. apply PyFacts.startswith_inv in H as [t ->].
  apply (PyFacts.startswith_app heading_marker ([rocket] ++ t)).
Qed.

(** A line the entry test rejects leaves the whole state alone unless it
    is a heading, and then only [current_category] can change. *)
Lemma step_keeps_catalog (st : state) (line : str) :
  startswith (strip line) entry_marker = false ->
  fst (step st line) = fst st.
Proof.
  intros H. destruct st as [agents cur]. unfold step.
  destruct (is_heading line).
  - now destruct (heading_category agents line).
  - destruct cur as [c|]; [|reflexivity].
    now rewrite H, andb_false_r.
Qed.

(** ** The missing file *)

(** C1: when no file exists at the hardcoded path, [parse_readme] returns
    the no-data value [None], and [display_agents] calls [print] once,
    with "Unable to load agent information."; standard output is that
    line and nothing else. *)
Theorem missing_file_prints_only_the_message (fs : filesystem) :
  fs readme_path = None ->
  parse_readme fs = None
  /\ display_agents fs = [lit "Unable to load agent information."]
  /\ stdout_text (display_agents fs)
     = lit "Unable to load agent information." ++ [newline].
Proof.
  intros H. unfold display_agents, parse_readme. rewrite H.
  repeat split.
Qed.

Lemma missing_file_prints_only_the_message_witness :
  parse_readme (fun _ => None) = None
  /\ display_agents (fun _ => None)
     = [lit "Unable to load agent information."]
  /\ stdout_text (display_agents (fun _ => None))
     = lit "Unable to load agent information." ++ [newline].
Proof.
  apply (missing_file_prints_only_the_message (fun _ => None)).
  reflexivity.
Defined.

(** ** Headings *)

(** C4: on a qualifying heading line, [current_category] becomes the
    first name of the fixed list that the line contains, whatever other
    names of the list the line contains as well and wherever in the line
    they stand. *)
Theorem first_category_in_list_order_wins
        (agents : catalog) (current : option str) (line : str)
        (before : list str) (cat : str) (after : list str) :
  keys agents = categories ->
  categories = before ++ cat :: after ->
  is_heading line = true ->
  Forall (fun c => contains c line = false) before ->
  contains cat line = true ->
  step (agents, current) line = (agents, Some cat).
Proof.
  intros Hk Hc Hh Hb Hcat. unfold step. rewrite Hh.
  unfold heading_category. rewrite Hk, Hc.
  now rewrite (find_first _ before cat after Hb Hcat).
Qed.

(** The line names "Documentation" first and "Data & AI" second, and
    also "Business & Marketing"; "Data & AI" comes first in the list. *)
Lemma first_category_in_list_order_wins_witness :
  step (initial_agents, Some (lit "Documentation"))
       (lit "### Documentation, Data & AI, Business & Marketing")
  = (initial_agents, Some (lit "Data & AI")).
Proof.
  apply (first_category_in_list_order_wins
           initial_agents (Some (lit "Documentation"))
           (lit "### Documentation, Data & AI, Business & Marketing")
           (firstn 4 categories) (lit "Data & AI") (skipn 5 categories)).
  - reflexivity.
  - reflexivity.
  - vm_compute; reflexivity.
  - apply Forall_by_existsb; vm_compute; reflexivity.
  - vm_compute; reflexivity.
Defined.

(** C5: a line that starts with "### " followed by U+1F680 changes
    nothing; [current_category] changes only on a line that starts with
    "### ", does not start with "### " and U+1F680, and contains a
    category name; a qualifying heading that contains no category name
    leaves the state as it was, [current_category] included. *)
Theorem only_matched_headings_move_the_category (st : state) (line : str) :
  (startswith line rocket_marker = true -> step st line = st)
  /\ (snd (step st line) <> snd st ->
      startswith line heading_marker = true
      /\ startswith line rocket_marker = false
      /\ exists cat,
           heading_category (fst st) line = Some cat
           /\ snd (step st line) = Some cat)
  /\ (is_heading line = true ->
      heading_category (fst st) line = None -> step st line = st)
  /\ (is_heading line = false -> snd (step st line) = snd st).
Proof.
  assert (Else : is_heading line = false -> snd (step st line) = snd st).
  { intros Hh. destruct st as [agents cur]. unfold step. rewrite Hh.
    destruct cur as [c|]; [|reflexivity].
    destruct (truthy c && startswith (strip line) entry_marker);
      [|reflexivity].
    now destruct (Re.rmatch agent_re (strip line)). }
  split; [|split; [|split]].
  - intros Hr. pose proof (rocket_is_heading_marked line Hr) as Hm.
    destruct st as [agents cur]. unfold step, is_heading.
    rewrite Hr, Hm. cbn [negb andb].
    destruct cur as [c|]; [|reflexivity].
    now rewrite (heading_not_entry line Hm), andb_false_r.
  - intros Hchg. destruct (is_heading line) eqn:Hh.
    + unfold is_heading in Hh. apply andb_true_iff in Hh as [H1 H2].
      apply negb_true_iff in H2. split; [assumption|split; [assumption|]].
      destruct st as [agents cur]. unfold step, is_heading in *.
      rewrite H1, H2 in *. cbn [negb andb fst snd] in *.
      destruct (heading_category agents line) as [cat|].
      * now exists cat.
      * now contradiction Hchg.
    + now contradiction Hchg; apply Else.
  - intros Hh Hn. destruct st as [agents cur]. unfold step.
    simpl in Hn. now rewrite Hh, Hn.
  - exact Else.
Qed.

Lemma only_matched_headings_move_the_category_witness :
  step (initial_agents, Some (lit "Data & AI"))
       (lit "### " ++ [rocket] ++ lit " Haiku: Documentation")
  = (initial_agents, Some (lit "Data & AI"))
  /\ step (initial_agents, Some (lit "Data & AI")) (lit "### Overview")
     = (initial_agents, Some (lit "Data & AI")).
Proof.
  split.
  - apply (proj1 (only_matched_headings_move_the_category
                    (initial_agents, Some (lit "Data & AI"))
                    (lit "### " ++ [rocket] ++ lit " Haiku: Documentation"))).
    reflexivity.
  - apply (proj1 (proj2 (proj2 (only_matched_headings_move_the_category
                    (initial_agents, Some (lit "Data & AI"))
                    (lit "### Overview"))))).
    + reflexivity.
    + reflexivity.
Defined.

(** ** The catalog *)

(** C6: for a file that exists, the dictionary [parse_readme] returns has
    the nine category names as its keys, in the order of the literal and
    with no other key, and so has the dictionary after every prefix of
    the lines, whatever lists the keys hold. *)
Theorem catalog_keys_are_the_categories (fs : filesystem) (content : str) :
  fs readme_path = Some content ->
  exists agents,
    parse_readme fs = Some agents
    /\ keys agents = categories
    /\ length (keys agents) = 9%nat
    /\ NoDup (keys agents)
    /\ forall pre post,
         split_nl content = pre ++ post ->
         keys (fst (run_lines initial_state pre)) = categories.
Proof.
  intros H. exists (parse_content content).
  assert (K : forall lines,
             keys (fst (run_lines initial_state lines)) = categories).
  { intros lines. now rewrite keys_run_lines. }
  unfold parse_readme. rewrite H. unfold parse_content.
  rewrite K. repeat split.
  - apply categories_nodup.
  - intros pre post _. apply K.
Qed.

Lemma catalog_keys_are_the_categories_witness :
  exists agents,
    parse_readme (fun _ => Some []) = Some agents
    /\ keys agents = categories
    /\ length (keys agents) = 9%nat
    /\ NoDup (keys agents)
    /\ forall pre post,
         split_nl [] = pre ++ post ->
         keys (fst (run_lines initial_state pre)) = categories.
Proof.
  apply (catalog_keys_are_the_categories (fun _ => Some []) []).
  reflexivity.
Defined.

Lemma unrecognized_step (line : str) :
  recognized_heading line = false -> step initial_state line = initial_state.
Proof.
  unfold recognized_heading, step, initial_state. intros H.
  destruct (is_heading line); [|reflexivity].
  now destruct (heading_category initial_agents line).
Qed.

Lemma unrecognized_run (pre : list str) :
  Forall (fun l => recognized_heading l = false) pre ->
  run_lines initial_state pre = initial_state.
Proof.
  unfold run_lines.
  induction 1 as [|l pre Hl _ IH]; cbn [fold_left]; [reflexivity|].
  now rewrite (unrecognized_step l Hl).
Qed.

Lemma no_entry_run (post : list str) (st : state) :
  Forall (fun l => entry_shaped l = false) post ->
  fst (run_lines st post) = fst st.
Proof.
  unfold run_lines. intros H; revert st.
  induction H as [|l post Hl _ IH]; intros st; cbn [fold_left];
    [reflexivity|].
  now rewrite IH, step_keeps_catalog.
Qed.

(** C7: lines that come before any recognized category heading leave the
    state as it was at the start, so the catalog is the one the remaining
    lines produce from the empty dictionary; when no entry-shaped line
    follows, every category of the catalog is empty. *)
Theorem entries_before_any_heading_are_dropped
        (content : str) (pre post : list str) :
  split_nl content = pre ++ post ->
  Forall (fun l => recognized_heading l = false) pre ->
  run_lines initial_state pre = initial_state
  /\ parse_content content = fst (run_lines initial_state post)
  /\ (Forall (fun l => entry_shaped l = false) post ->
      parse_content content = initial_agents
      /\ forall cat, lookup (parse_content content) cat = []).
Proof.
  intros Hs Hpre. pose proof (unrecognized_run pre Hpre) as Hrun.
  assert (E : parse_content content = fst (run_lines initial_state post)).
  { unfold parse_content. now rewrite Hs, run_lines_app, Hrun. }
  split; [assumption|split; [assumption|]].
  intros Hpost. rewrite E, (no_entry_run post initial_state Hpost).
  split; [reflexivity|].
  intros cat. simpl fst. unfold initial_agents.
  induction categories as [|c cs IH]; simpl; [reflexivity|].
  now destruct (Py.eqb c cat).
Qed.

Lemma entries_before_any_heading_are_dropped_witness :
  parse_content orphan_sample = initial_agents
  /\ forall cat, lookup (parse_content orphan_sample) cat = [].
Proof.
  apply (entries_before_any_heading_are_dropped
           orphan_sample
           (firstn 2 (split_nl orphan_sample))
           (skipn 2 (split_nl orphan_sample))).
  - vm_compute; reflexivity.
  - apply Forall_by_existsb; vm_compute; reflexivity.
  - apply Forall_by_existsb; vm_compute; reflexivity.
Defined.

(** *** Two calls in one process *)

Module StoreFacts.

(** The loop body on dictionaries, as opposed to [Store.step]. *)
Local Abbreviation pure_step := step.

Import Store.

Lemma nth_error_mid (pre : heap) (x : obj) (post : heap) :
  nth_error (pre ++ x :: post) (length pre) = Some x.
Proof. induction pre as [|y pre IH]; [reflexivity | exact IH]. Qed.

Lemma update_mid (pre : heap) (x o : obj) (post : heap) :
  update (pre ++ x :: post) (length pre) o = pre ++ o :: post.
Proof.
  induction pre as [|y pre IH]; [reflexivity|]. simpl. now rewrite IH.
Qed.

Lemma length_snoc (pre : heap) (x : obj) :
  length (pre ++ [x]) = S (length pre).
Proof. rewrite length_app. simpl. lia. Qed.

Lemma map_fst_combine_seq (ks : list str) (n : nat) :
  map fst (combine ks (seq n (length ks))) = ks.
Proof.
  revert n; induction ks as [|k ks IH]; intros n; [reflexivity|].
  simpl. now rewrite IH.
Qed.

Lemma map_snd_combine_seq (ks : list str) (n : nat) :
  map snd (combine ks (seq n (length ks))) = seq n (length ks).
Proof.
  revert n; induction ks as [|k ks IH]; intros n; [reflexivity|].
  simpl. now rewrite IH.
Qed.

Lemma keys_combine (ks : list str) (ls : list (list entry)) :
  length ls = length ks -> keys (combine ks ls) = ks.
Proof.
  revert ls; induction ks as [|k ks IH]; intros [|l ls] H;
    try discriminate; [reflexivity|].
  simpl. f_equal. apply IH. now injection H.
Qed.

(** The literal allocates its lists one behind the other. *)
Lemma alloc_lists_spec (ks : list str) (h : heap) :
  alloc_lists ks h
  = (h ++ map ListObj (repeat [] (length ks)),
     combine ks (seq (length h) (length ks))).
Proof.
  revert h; induction ks as [|k ks IH]; intros h.
  - simpl. now rewrite app_nil_r.
  - cbn [alloc_lists alloc]. rewrite IH, length_snoc.
    cbn [length repeat map seq combine]. now rewrite <- app_assoc.
Qed.

(** [agents[cur].append(e)] in the store is [dict_append] on what the
    dictionary holds; for a missing key neither changes anything. *)
Lemma append_in_store (c : str) (e : entry) (post : heap) (ks : list str) :
  forall (ls : list (list entry)) (pre : heap),
    length ls = length ks ->
    match getitem (combine ks (seq (length pre) (length ks))) c with
    | Some a =>
        exists ls',
          length ls' = length ks
          /\ list_append (pre ++ map ListObj ls ++ post) a e
             = pre ++ map ListObj ls' ++ post
          /\ combine ks ls' = dict_append (combine ks ls) c e
    | None => dict_append (combine ks ls) c e = combine ks ls
    end.
Proof.
  induction ks as [|k ks IH]; intros [|l ls] pre Hlen; try discriminate;
    [reflexivity|].
  injection Hlen as Hlen. cbn [length seq combine getitem dict_append map].
  destruct (Py.eqb k c) eqn:E.
  - exists ((l ++ [e]) :: ls). repeat split.
    + simpl. now rewrite Hlen.
    + unfold list_append. cbn [app]. rewrite nth_error_mid.
      apply update_mid.
  - specialize (IH ls (pre ++ [ListObj l]) Hlen).
    rewrite length_snoc in IH.
    destruct (getitem (combine ks (seq (S (length pre)) (length ks))) c)
      as [a|].
    + destruct IH as (ls' & Hl & Hh & Hc). exists (l :: ls').
      repeat split.
      * simpl. now rewrite Hl.
      * rewrite <- !app_assoc in Hh. exact Hh.
      * cbn [combine]. now rewrite Hc.
    + now rewrite IH.
Qed.

(** Reading the dictionary through its address. *)
Lemma dict_at_spec (post : heap) (ks : list str) :
  forall (ls : list (list entry)) (pre h : heap),
    length ls = length ks ->
    h = pre ++ map ListObj ls ++ post ->
    map (fun item => (fst item, list_at h (snd item)))
        (combine ks (seq (length pre) (length ks)))
    = combine ks ls.
Proof.
  induction ks as [|k ks IH]; intros [|l ls] pre h Hlen Hh;
    try discriminate; [reflexivity|].
  injection Hlen as Hlen. cbn [length seq combine map fst snd]. f_equal.
  - f_equal. unfold list_at. rewrite Hh. cbn [map app].
    now rewrite nth_error_mid.
  - rewrite <- (length_snoc pre (ListObj l)).
    apply IH; [assumption|]. rewrite Hh. cbn [map app].
    now rewrite <- app_assoc.
Qed.

Section OneDictionary.

Variables (pre : heap) (post : heap).

Let items := combine categories (seq (length pre) 9).
Let agents := (length pre + 9)%nat.

Lemma layout_dict (ls : list (list entry)) :
  length ls = 9%nat ->
  nth_error (layout pre post ls) agents = Some (DictObj items).
Proof.
  intros H. unfold layout, agents. fold items. rewrite app_assoc.
  replace (length pre + 9)%nat with (length (pre ++ map ListObj ls)).
  - apply nth_error_mid.
  - rewrite length_app, length_map. lia.
Qed.

Lemma layout_read (ls : list (list entry)) :
  length ls = 9%nat ->
  dict_at (layout pre post ls) agents = Some (combine categories ls).
Proof.
  intros H. unfold dict_at. rewrite (layout_dict ls H). f_equal.
  apply (dict_at_spec (DictObj items :: post) categories ls pre);
    [exact H | reflexivity].
Qed.

(** One line: the store moves as the dictionary of [step] does. *)
Lemma step_simulates (ls : list (list entry)) (cur : option str) (line : str) :
  length ls = 9%nat ->
  exists ls',
    length ls' = 9%nat
    /\ Store.step agents (layout pre post ls, cur) line
       = (layout pre post ls',
          snd (pure_step (combine categories ls, cur) line))
    /\ combine categories ls'
       = fst (pure_step (combine categories ls, cur) line).
Proof.
  intros H. unfold Store.step, pure_step. rewrite (layout_dict ls H).
  unfold heading_category. rewrite (keys_combine categories ls H).
  assert (Hf : map fst items = categories).
  { exact (map_fst_combine_seq categories (length pre)). }
  rewrite Hf.
  destruct (is_heading line).
  - destruct (find _ categories); exists ls; auto.
  - destruct cur as [c|]; [|exists ls; auto].
    destruct (truthy c && startswith (strip line) entry_marker);
      [|exists ls; auto].
    destruct (Re.rmatch agent_re (strip line)) as [m|]; [|exists ls; auto].
    pose proof (append_in_store c (Re.group 1 m, Re.group 2 m)
                  (DictObj items :: post) categories ls pre H) as A.
    change (combine categories (seq (length pre) (length categories)))
      with items in A.
    destruct (getitem items c) as [a|].
    + destruct A as (ls' & Hl & Hh & Hc). exists ls'.
      split; [exact Hl|]. split; [|exact Hc].
      cbn [snd]. f_equal. exact Hh.
    + exists ls. rewrite A. auto.
Qed.

Lemma run_simulates (lines : list str) :
  forall (ls : list (list entry)) (cur : option str),
    length ls = 9%nat ->
    exists ls',
      length ls' = 9%nat
      /\ fold_left (Store.step agents) lines (layout pre post ls, cur)
         = (layout pre post ls',
            snd (run_lines (combine categories ls, cur) lines))
      /\ combine categories ls'
         = fst (run_lines (combine categories ls, cur) lines).
Proof.
  unfold run_lines.
  induction lines as [|l lines IH]; intros ls cur H; cbn [fold_left].
  - exists ls. auto.
  - destruct (step_simulates ls cur l H) as (ls1 & H1 & Hs & Hc).
    rewrite Hs.
    destruct (IH ls1 (snd (pure_step (combine categories ls, cur) l)) H1)
      as (ls2 & H2 & Hs2 & Hc2).
    exists ls2. rewrite Hc in Hs2, Hc2.
    rewrite <- surjective_pairing in Hs2, Hc2. auto.
Qed.

End OneDictionary.

(** One call: nine lists and the dictionary are added behind the objects
    there were, and the dictionary read through the address returned is
    the catalog of the text. *)
Lemma parse_readme_run (w : world) (content : str) :
  files w readme_path = Some content ->
  exists ls,
    length ls = 9%nat
    /\ combine categories ls = parse_content content
    /\ Store.parse_readme w
       = (World (files w) (layout (objects w) [] ls),
          Some (length (objects w) + 9)%nat).
Proof.
  intros H. unfold Store.parse_readme, new_agents. rewrite H.
  rewrite alloc_lists_spec. cbn [alloc].
  destruct (run_simulates (objects w) [] (split_nl content)
              (repeat [] 9) None eq_refl) as (ls & Hl & Hs & Hc).
  exists ls. split; [exact Hl|]. split; [exact Hc|].
  unfold layout in Hs at 1. rewrite app_assoc in Hs.
  change (length categories) with 9%nat.
  rewrite length_app, length_map, repeat_length.
  change (map ListObj (repeat [] 9)) with (map ListObj (repeat [] 9)).
  rewrite Hs. reflexivity.
Qed.

End StoreFacts.

(** C8: two calls of [parse_readme] in one process, the second in the
    world the first leaves behind, on a file that stays as it is, return
    two dictionaries that read the same: both are the catalog of the
    text, which is also what the text alone determines.  Nothing is
    carried from one call to the next: the file system is not written,
    the objects that existed before are still there unchanged, each call
    builds a dictionary of its own (the addresses differ) with lists of
    its own (no list belongs to both), and the second call leaves what
    the first returned as it was. *)
Theorem two_runs_yield_identical_catalogs (w : Store.world) (content : str) :
  Store.files w readme_path = Some content ->
  let run1 := Store.parse_readme w in
  let run2 := Store.parse_readme (fst run1) in
  exists d1 d2 items1 items2 added,
    snd run1 = Some d1 /\ snd run2 = Some d2 /\ d1 <> d2
    /\ Store.dict_at (Store.objects (fst run1)) d1
       = Some (parse_content content)
    /\ Store.dict_at (Store.objects (fst run2)) d1
       = Some (parse_content content)
    /\ Store.dict_at (Store.objects (fst run2)) d2
       = Some (parse_content content)
    /\ parse_readme (Store.files w) = Some (parse_content content)
    /\ Store.files (fst run2) = Store.files w
    /\ Store.objects (fst run2) = Store.objects w ++ added
    /\ nth_error (Store.objects (fst run2)) d1 = Some (Store.DictObj items1)
    /\ nth_error (Store.objects (fst run2)) d2 = Some (Store.DictObj items2)
    /\ (forall a, In a (map snd items1) -> ~ In a (map snd items2)).
Proof.
  intros H run1 run2.
  destruct (StoreFacts.parse_readme_run w content H) as (ls1 & L1 & C1 & R1).
  subst run2 run1. rewrite R1. cbn [fst snd].
  set (n := length (Store.objects w)).
  set (h1 := Store.layout (Store.objects w) [] ls1).
  assert (Hlen : length h1 = (n + 10)%nat).
  { unfold h1, Store.layout.
    rewrite !length_app, length_map, L1. simpl. fold n. lia. }
  destruct (StoreFacts.parse_readme_run
              (Store.World (Store.files w) h1) content H)
    as (ls2 & L2 & C2 & R2).
  rewrite R2. cbn [fst snd Store.files Store.objects].
  set (h2 := Store.layout h1 [] ls2).
  assert (Hshape : h2 = Store.layout (Store.objects w)
                          (map Store.ListObj ls2
                           ++ [Store.DictObj
                                 (combine categories (seq (length h1) 9))])
                          ls1).
  { unfold h2, h1, Store.layout. rewrite <- !app_assoc. reflexivity. }
  exists (n + 9)%nat, (length h1 + 9)%nat.
  exists (combine categories (seq n 9)).
  exists (combine categories (seq (length h1) 9)).
  exists (map Store.ListObj ls1
          ++ Store.DictObj (combine categories (seq n 9))
          :: map Store.ListObj ls2
          ++ [Store.DictObj (combine categories (seq (length h1) 9))]).
  repeat split.
  - lia.
  - unfold h1. rewrite <- C1. now apply StoreFacts.layout_read.
  - rewrite Hshape, <- C1. now apply StoreFacts.layout_read.
  - unfold h2. rewrite <- C2. now apply StoreFacts.layout_read.
  - unfold parse_readme. now rewrite H.
  - rewrite Hshape. reflexivity.
  - rewrite Hshape. now apply StoreFacts.layout_dict.
  - unfold h2. now apply StoreFacts.layout_dict.
  - intros a.
    change (map snd (combine categories (seq n 9)))
      with (map snd (combine categories (seq n (length categories)))).
    change (map snd (combine categories (seq (length h1) 9)))
      with (map snd (combine categories
                       (seq (length h1) (length categories)))).
    rewrite !StoreFacts.map_snd_combine_seq, !in_seq.
    change (length categories) with 9%nat. lia.
Qed.

(** A world that already holds an object, and a file with two entries. *)
Lemma two_runs_yield_identical_catalogs_witness :
  let w := Store.World (fun _ => Some review_sample)
                       [Store.ListObj [(lit "kept", lit "as it is")]] in
  let run1 := Store.parse_readme w in
  let run2 := Store.parse_readme (fst run1) in
  exists d1 d2 items1 items2 added,
    snd run1 = Some d1 /\ snd run2 = Some d2 /\ d1 <> d2
    /\ Store.dict_at (Store.objects (fst run1)) d1
       = Some (parse_content review_sample)
    /\ Store.dict_at (Store.objects (fst run2)) d1
       = Some (parse_content review_sample)
    /\ Store.dict_at (Store.objects (fst run2)) d2
       = Some (parse_content review_sample)
    /\ parse_readme (Store.files w) = Some (parse_content review_sample)
    /\ Store.files (fst run2) = Store.files w
    /\ Store.objects (fst run2) = Store.objects w ++ added
    /\ nth_error (Store.objects (fst run2)) d1 = Some (Store.DictObj items1)
    /\ nth_error (Store.objects (fst run2)) d2 = Some (Store.DictObj items2)
    /\ (forall a, In a (map snd items1) -> ~ In a (map snd items2)).
Proof.
  apply (two_runs_yield_identical_catalogs
           (Store.World (fun _ => Some review_sample)
                        [Store.ListObj [(lit "kept", lit "as it is")]])
           review_sample).
  reflexivity.
Defined.


(** ** Entry lines *)

Lemma entry_text_cons (name link desc : str) :
  entry_text name link desc
  = [45; 32; 42; 42; 91] ++ name ++ [93; 40] ++ link
    ++ [41; 42; 42; 32; 45; 32] ++ desc.
Proof. reflexivity. Qed.

(** What line 35 to 40 do with a line whose stripped text is an entry. *)
Lemma step_entry (agents : catalog) (cur line name link desc : str) :
  truthy cur = true ->
  strip line = entry_text name link desc ->
  name <> [] -> no_char 93 name ->
  link <> [] -> no_char 41 link ->
  desc <> [] -> no_char newline desc ->
  step (agents, Some cur) line
  = (dict_append agents cur (name, desc), Some cur).
Proof.
  intros Ht Hs Hn Hn' Hl Hl' Hd Hd'. unfold step.
  assert (Hh : is_heading line = false).
  { unfold is_heading.
    destruct (startswith line heading_marker) eqn:E; [|reflexivity].
    apply heading_strip in E as [t E]. rewrite Hs in E. discriminate E. }
  rewrite Hh, Ht, Hs.
  assert (Hm : startswith (entry_text name link desc) entry_marker = true).
  { apply PyFacts.startswith_app. }
  rewrite Hm. cbn [andb].
  now rewrite agent_re_complete.
Qed.

Lemma dict_append_one_line (agents : catalog) (k : str) (e : entry) :
  one_line e -> entries_one_line agents ->
  entries_one_line (dict_append agents k e).
Proof.
  intros He. induction 1 as [|[k' v] rest Hv Hrest IH]; simpl;
    [constructor|].
  destruct (Py.eqb k' k); constructor; trivial.
  simpl in *. apply Forall_app. split; [assumption|now constructor].
Qed.

Lemma step_one_line (st : state) (line : str) :
  no_char newline line ->
  entries_one_line (fst st) -> entries_one_line (fst (step st line)).
Proof.
  intros Hnl Hst. destruct st as [agents cur]. unfold step.
  destruct (is_heading line).
  - now destruct (heading_category agents line).
  - destruct cur as [c|]; [|assumption].
    destruct (truthy c && startswith (strip line) entry_marker);
      [|assumption].
    destruct (Re.rmatch agent_re (strip line)) as [m|] eqn:E; [|assumption].
    apply agent_re_sound in E as (n & l & d & rest & E & -> & _).
    apply (Forall_strip _ line) in Hnl. rewrite E, entry_text_cons in Hnl.
    apply Forall_app in Hnl as [Hnl _].
    apply Forall_app in Hnl as [_ Hnl].
    apply Forall_app in Hnl as [Hn Hnl].
    do 3 (apply Forall_app in Hnl as [_ Hnl]).
    apply dict_append_one_line; [split|]; assumption.
Qed.

(** The names and descriptions [parse_readme] collects hold no newline,
    so each call of [print] for an entry writes one line. *)
Lemma parsed_entries_one_line (content : str) :
  entries_one_line (parse_content content).
Proof.
  unfold parse_content, run_lines.
  pose proof (PyFacts.split_nl_no_newline content) as Hnl.
  assert (H0 : entries_one_line (fst initial_state)).
  { unfold initial_state, initial_agents, entries_one_line.
    cbn [fst]. induction categories; simpl; repeat constructor; trivial. }
  revert H0. generalize initial_state.
  induction Hnl as [|l ls Hl _ IH]; intros st Hst; cbn [fold_left];
    [assumption|].
  apply IH. now apply step_one_line.
Qed.

(** C3: a line whose stripped text is [- **[name](link)** - desc], met
    while [current_category] is set, appends the pair [(name, desc)], both
    exactly as they stand in the line, at the end of the list of the
    current category and changes no other list; in the catalog returned
    the pair stands behind the entries of the earlier lines and before
    those of the later lines. *)
Theorem wellformed_entry_is_appended
        (content : str) (pre post : list str)
        (line cur name link desc : str) :
  split_nl content = pre ++ line :: post ->
  snd (run_lines initial_state pre) = Some cur ->
  strip line = entry_text name link desc ->
  name <> [] -> no_char 93 name ->
  link <> [] -> no_char 41 link ->
  desc <> [] ->
  let before := fst (run_lines initial_state pre) in
  let after := dict_append before cur (name, desc) in
  run_lines initial_state (pre ++ [line]) = (after, Some cur)
  /\ lookup after cur = lookup before cur ++ [(name, desc)]
  /\ (forall k, k <> cur -> lookup after k = lookup before k)
  /\ exists later,
       lookup (parse_content content) cur
       = lookup before cur ++ (name, desc) :: later.
Proof.
  intros Hc Hcur Hs Hn Hn' Hl Hl' Hd before after.
  pose proof (current_ok_run_lines pre _ current_ok_initial _ Hcur) as Hin.
  pose proof (keys_run_lines pre initial_state) as Hk.
  fold before in Hin, Hk.
  change (keys (fst initial_state)) with categories in Hk.
  assert (Ht : truthy cur = true).
  { rewrite Hk in Hin.
    exact (proj1 (Forall_forall _ _) categories_truthy cur Hin). }
  assert (Hd' : no_char newline desc).
  { pose proof (PyFacts.split_nl_no_newline content) as Hnl.
    rewrite Hc in Hnl. apply Forall_app in Hnl as [_ Hnl].
    apply Forall_inv in Hnl. apply (Forall_strip _ line) in Hnl.
    rewrite Hs, entry_text_cons in Hnl.
    now repeat (apply Forall_app in Hnl as [_ Hnl]). }
  assert (Hstep : run_lines initial_state (pre ++ [line])
                  = (after, Some cur)).
  { rewrite run_lines_app.
    destruct (run_lines initial_state pre) as [agents c] eqn:E.
    simpl in Hcur; subst c. subst before after. cbn [fst].
    unfold run_lines; cbn [fold_left]. now apply step_entry with link. }
  assert (Hsame : lookup after cur = lookup before cur ++ [(name, desc)]).
  { apply lookup_dict_append_same. exact Hin. }
  split; [assumption|split; [assumption|split]].
  - intros k Hne. now apply lookup_dict_append_other.
  - unfold parse_content. rewrite Hc.
    change (pre ++ line :: post) with (pre ++ [line] ++ post).
    rewrite app_assoc, run_lines_app, Hstep.
    destruct (run_lines_grows post (after, Some cur) cur) as [later E].
    exists later. rewrite E. cbn [fst]. now rewrite Hsame, <- app_assoc.
Qed.

Lemma wellformed_entry_is_appended_witness :
  exists later,
    lookup (parse_content review_sample) (lit "Development & Architecture")
    = [] ++ (lit "code-reviewer", lit "Reviews code for quality.") :: later.
Proof.
  refine (proj2 (proj2 (proj2
    (wellformed_entry_is_appended
       review_sample
       (firstn 1 (split_nl review_sample))
       (skipn 2 (split_nl review_sample))
       (lit "  - **[code-reviewer](link)** - Reviews code for quality.  ")
       (lit "Development & Architecture")
       (lit "code-reviewer") (lit "link")
       (lit "Reviews code for quality.")
       _ _ _ _ _ _ _ _)))).
  - vm_compute; reflexivity.
  - vm_compute; reflexivity.
  - vm_compute; reflexivity.
  - discriminate.
  - apply Forall_forall. intros x Hx E. subst x. vm_compute in Hx.
    repeat (destruct Hx as [Hx|Hx]; [discriminate Hx|]). exact Hx.
  - discriminate.
  - apply Forall_forall. intros x Hx E. subst x. vm_compute in Hx.
    repeat (destruct Hx as [Hx|Hx]; [discriminate Hx|]). exact Hx.
  - discriminate.
Defined.

Lemma space_is_not_hash (c : char) : is_space c = true -> c <> 35.
Proof. intros H ->. discriminate H. Qed.

Lemma spaced_entry_not_heading (lead name link desc : str) :
  Forall (fun c => is_space c = true) lead ->
  is_heading (lead ++ entry_text name link desc) = false.
Proof.
  intros Hl. apply not_heading. destruct Hl as [|c lead Hc _].
  - discriminate.
  - now apply space_is_not_hash.
Qed.

(** The stripped text of an entry-shaped line: white space in front goes,
    and so does white space at the end of the description. *)
Lemma strip_entry_line (lead name link desc : str) :
  Forall (fun c => is_space c = true) lead ->
  strip (lead ++ entry_text name link desc)
  = [45; 32; 42; 42; 91] ++ name ++ [93; 40] ++ link
    ++ [41; 42; 42; 32; 45] ++ rstrip (32 :: desc).
Proof.
  intros Hl. rewrite entry_text_cons.
  replace ([45; 32; 42; 42; 91] ++ name ++ [93; 40] ++ link
           ++ [41; 42; 42; 32; 45; 32] ++ desc)
    with (([45; 32; 42; 42; 91] ++ name ++ [93; 40] ++ link
           ++ [41; 42; 42; 32]) ++ 45 :: 32 :: desc)
    by (now rewrite <- !app_assoc).
  rewrite PyFacts.strip_around by (trivial; reflexivity).
  now rewrite <- !app_assoc.
Qed.

Lemma entry_text_app (name link desc tail : str) :
  entry_text name link desc ++ tail = entry_text name link (desc ++ tail).
Proof. unfold entry_text. now rewrite <- !app_assoc. Qed.

(** White space around an entry whose description ends in a character
    that is not white space is all that [strip] removes. *)
Lemma framed_entry_strip (lead name link desc : str) (x : char)
      (trail : str) :
  Forall (fun c => is_space c = true) lead ->
  Forall (fun c => is_space c = true) trail ->
  is_space x = false ->
  strip (lead ++ entry_text name link (desc ++ [x]) ++ trail)
  = entry_text name link (desc ++ [x]).
Proof.
  intros Hl Ht Hx. rewrite entry_text_app, strip_entry_line by assumption.
  rewrite <- app_assoc.
  change (rstrip (32 :: desc ++ [x] ++ trail))
    with (rstrip ((32 :: desc) ++ x :: trail)).
  rewrite PyFacts.rstrip_app, (PyFacts.rstrip_spaces trail) by assumption.
  reflexivity.
Qed.

(** C10: an entry-shaped line, white space before it or not, whose name
    part (the text up to the first closing bracket), link part (the text
    up to the first closing parenthesis) or description part is empty is
    not matched by the pattern and leaves the state as it was: no entry
    is added to any category.  A description of white space only counts
    as empty, since the line is stripped first.  Every match of the
    pattern has a name, a link and a description of one character at
    least. *)
Theorem entry_with_an_empty_part_is_skipped
        (st : state) (lead name link desc : str) :
  Forall (fun c => is_space c = true) lead ->
  no_char 93 name ->
  no_char 41 link ->
  name = [] \/ link = [] \/ Forall (fun c => is_space c = true) desc ->
  Re.rmatch agent_re (strip (lead ++ entry_text name link desc)) = None
  /\ step st (lead ++ entry_text name link desc) = st
  /\ forall s m,
       Re.rmatch agent_re s = Some m ->
       exists name' link' desc' rest,
         s = entry_text name' link' desc' ++ rest /\ m = [name'; desc']
         /\ name' <> [] /\ link' <> [] /\ desc' <> [].
Proof.
  intros Hlead Hn Hl Hempty.
  assert (Hnone : Re.rmatch agent_re
                    (strip (lead ++ entry_text name link desc)) = None).
  { destruct (Re.rmatch agent_re _) as [m|] eqn:E; [exfalso|reflexivity].
    apply agent_re_sound in E
      as (n' & l' & d' & rest & E & _ & [Hn1 Hn2] & [Hl1 Hl2] & [Hd1 _]).
    rewrite strip_entry_line, entry_text_cons in E by assumption.
    rewrite <- !app_assoc in E. apply app_inv_head in E.
    apply (ReFacts.cut_unique 93) in E as [En E]; trivial.
    injection E as E.
    apply (ReFacts.cut_unique 41) in E as [El E]; trivial.
    destruct Hempty as [->|[->|Hsp]].
    - now subst n'.
    - now subst l'.
    - rewrite (PyFacts.rstrip_spaces desc Hsp) in E. discriminate E. }
  split; [assumption|split].
  - destruct st as [agents cur]. unfold step.
    rewrite spaced_entry_not_heading by assumption.
    destruct cur as [c|]; [|reflexivity].
    destruct (truthy c && startswith _ entry_marker); [|reflexivity].
    now rewrite Hnone.
  - intros s m Hm.
    apply agent_re_sound in Hm
      as (n' & l' & d' & rest & E & Em & [Hn1 _] & [Hl1 _] & [Hd1 _]).
    now exists n', l', d', rest.
Qed.

Lemma entry_with_an_empty_part_is_skipped_witness :
  step (initial_agents, Some (lit "Documentation"))
       (lit "  - **[api-documenter](docs/api.md)** - ")
  = (initial_agents, Some (lit "Documentation")).
Proof.
  refine (proj1 (proj2
    (entry_with_an_empty_part_is_skipped
       (initial_agents, Some (lit "Documentation"))
       (lit "  ") (lit "api-documenter") (lit "docs/api.md") []
       _ _ _ _))).
  - repeat constructor.
  - apply Forall_forall. intros x Hx E. subst x. vm_compute in Hx.
    repeat (destruct Hx as [Hx|Hx]; [discriminate Hx|]). exact Hx.
  - apply Forall_forall. intros x Hx E. subst x. vm_compute in Hx.
    repeat (destruct Hx as [Hx|Hx]; [discriminate Hx|]). exact Hx.
  - right; right. constructor.
Defined.

(** ** The presenter *)

Lemma wrap_loop_lines (remaining : str) :
  Forall (fun l => hd 0 l = space) (wrap_loop remaining).
Proof.
  funelim (wrap_loop remaining); simp wrap_loop; constructor; trivial.
Qed.

Lemma entry_lines_head (e : entry) :
  Forall (fun l => hd 0 l = space) (entry_lines e).
Proof.
  destruct e as [agent_name agent_desc]. unfold entry_lines.
  constructor; [reflexivity|].
  destruct (70 <? length agent_desc)%nat; [apply wrap_loop_lines|constructor].
Qed.

(** No call of [print] in the report starts with the letter U. *)
Lemma report_heads (agents : catalog) :
  Forall (fun l => hd 0 l <> 85) (report agents).
Proof.
  unfold report. constructor; [discriminate|].
  constructor; [discriminate|].
  apply Forall_app. split.
  - apply Forall_flat_map, Forall_forall. intros [category agent_list] _.
    unfold category_lines. destruct agent_list as [|e l]; [constructor|].
    constructor; [discriminate|]. constructor; [discriminate|].
    apply Forall_flat_map, Forall_forall. intros e' _.
    eapply Forall_impl; [|apply entry_lines_head].
    intros a ->. discriminate.
  - unfold closing_lines. repeat (constructor; [discriminate|]).
    constructor.
Qed.

(** C9: for a file that exists, whatever its text (the empty file
    included), [display_agents] never prints "Unable to load agent
    information.": the dictionary returned has the nine keys, so it is
    neither [None] nor empty.  The calls of [print] are the title banner,
    the rule of 80 equals signs, for every category that has entries its
    sub-banner, a rule of 40 dashes and the lines of its entries, then
    the closing rule, the two usage lines, the heading and the three
    lines of the model distribution, and an empty line. *)
Theorem existing_file_prints_the_report (fs : filesystem) (content : str) :
  fs readme_path = Some content ->
  parse_readme fs = Some (parse_content content)
  /\ keys (parse_content content) = categories
  /\ display_agents fs
     = ([10; 128218] ++ lit " Available Claude Code Agents (75 total)"
        ++ [10])
       :: repeat 61 80
       :: flat_map
            (fun item : str * list entry =>
               match snd item with
               | [] => []
               | _ :: _ =>
                   (10 :: lit "### " ++ fst item)
                   :: repeat 45 40
                   :: flat_map entry_lines (snd item)
               end)
            (parse_content content)
       ++ [ 10 :: repeat 61 80;
            [10; 128161]
            ++ lit " Usage: Mention an agent by name or let Claude auto-select based on context";
            lit "   Example: 'Use code-reviewer to check my changes'";
            [10; 128230] ++ lit " Model Distribution:";
            lit "   " ++ [8226; 32; 128640] ++ lit " Haiku (fast): 16 agents";
            lit "   " ++ [8226; 32; 9889]
            ++ lit " Sonnet (balanced): 44 agents";
            lit "   " ++ [8226; 32; 129504]
            ++ lit " Opus (powerful): 15 agents";
            [] ]
  /\ ~ In (lit "Unable to load agent information.") (display_agents fs).
Proof.
  intros H.
  assert (K : keys (parse_content content) = categories).
  { unfold parse_content. now rewrite keys_run_lines. }
  assert (D : display_agents fs = report (parse_content content)).
  { unfold display_agents, parse_readme. rewrite H.
    destruct (parse_content content); [discriminate K | reflexivity]. }
  split; [unfold parse_readme; now rewrite H|].
  split; [assumption|]. split.
  - rewrite D. unfold report. f_equal. f_equal. f_equal.
    apply flat_map_ext. intros [category agent_list].
    now destruct agent_list.
  - rewrite D. intros Hin.
    pose proof (report_heads (parse_content content)) as Hh.
    rewrite Forall_forall in Hh. now apply (Hh _ Hin).
Qed.

(** The empty file: the ten fixed calls of [print]. *)
Lemma existing_file_prints_the_report_witness :
  display_agents (fun _ => Some [])
  = [ [10; 128218] ++ lit " Available Claude Code Agents (75 total)"
      ++ [10];
      repeat 61 80;
      10 :: repeat 61 80;
      [10; 128161]
      ++ lit " Usage: Mention an agent by name or let Claude auto-select based on context";
      lit "   Example: 'Use code-reviewer to check my changes'";
      [10; 128230] ++ lit " Model Distribution:";
      lit "   " ++ [8226; 32; 128640] ++ lit " Haiku (fast): 16 agents";
      lit "   " ++ [8226; 32; 9889] ++ lit " Sonnet (balanced): 44 agents";
      lit "   " ++ [8226; 32; 129504] ++ lit " Opus (powerful): 15 agents";
      [] ]
  /\ ~ In (lit "Unable to load agent information.")
          (display_agents (fun _ => Some [])).
Proof.
  refine (proj2 (proj2
    (existing_file_prints_the_report (fun _ => Some []) [] _))).
  reflexivity.
Defined.

Lemma Forall_slices {A} (P : A -> Prop) (n : nat) (l : list A) :
  Forall P l -> Forall P (firstn n l) /\ Forall P (skipn n l).
Proof.
  intros H. rewrite <- (firstn_skipn n l) in H.
  now apply Forall_app in H.
Qed.

Lemma wrap_loop_short (remaining : str) :
  remaining <> [] ->
  (length remaining <= 70)%nat ->
  wrap_loop remaining = [times space 35 ++ remaining].
Proof.
  intros Hne Hlen. destruct remaining as [|c r]; [congruence|].
  simp wrap_loop. rewrite skipn_all2 by assumption. simp wrap_loop.
  unfold continuation_line. now rewrite firstn_all2 by assumption.
Qed.

(** C2, as the code has it: an entry whose description has 85 characters
    is printed by two calls of [print].  The first prints two spaces, the
    bullet, a space, the name padded with spaces to 30 characters, a
    space and the first 70 characters of the description; the second
    prints 35 spaces (four for the margin, the blank field of 30 and the
    separating space) and the remaining 15 characters.  When neither the
    name nor the description holds a newline, as is the case for every
    entry the extractor returns, neither call prints one, so the two
    calls are two lines of output. *)
Theorem description_of_85_wraps_once (agent_name agent_desc : str) :
  length agent_desc = 85%nat ->
  entry_lines (agent_name, agent_desc)
  = [ [space; space; bullet; space] ++ agent_name
      ++ times space (30 - length agent_name) ++ [space]
      ++ firstn 70 agent_desc;
      times space 35 ++ skipn 70 agent_desc ]
  /\ length (firstn 70 agent_desc) = 70%nat
  /\ length (skipn 70 agent_desc) = 15%nat
  /\ (one_line (agent_name, agent_desc) ->
      Forall (no_char newline) (entry_lines (agent_name, agent_desc))).
Proof.
  intros H.
  assert (Hr : length (skipn 70 agent_desc) = 15%nat).
  { rewrite length_skipn, H. reflexivity. }
  assert (E : entry_lines (agent_name, agent_desc)
              = [ [space; space; bullet; space] ++ agent_name
                  ++ times space (30 - length agent_name) ++ [space]
                  ++ firstn 70 agent_desc;
                  times space 35 ++ skipn 70 agent_desc ]).
  { unfold entry_lines. rewrite H. cbn [Nat.ltb Nat.leb].
    rewrite wrap_loop_short.
    - unfold entry_first_line, ljust, times. now rewrite <- !app_assoc.
    - intros E. rewrite E in Hr. discriminate Hr.
    - rewrite Hr. repeat constructor. }
  split; [exact E|].
  split; [rewrite length_firstn, H; reflexivity|].
  split; [exact Hr|].
  intros [Hn Hd]. simpl in Hn, Hd. rewrite E. unfold no_char in *.
  assert (Hsp : forall n, Forall (fun c => c <> newline) (times space n)).
  { intros n. apply Forall_forall. intros x Hx.
    apply repeat_spec in Hx. subst x. discriminate. }
  constructor; [|constructor; [|constructor]].
  - rewrite !Forall_app. repeat split; trivial.
    + repeat (constructor; [discriminate|]). constructor.
    + repeat (constructor; [discriminate|]). constructor.
    + now apply Forall_slices.
  - rewrite Forall_app. split; [apply Hsp | now apply Forall_slices].
Qed.

Lemma description_of_85_wraps_once_witness :
  entry_lines (lit "code-reviewer", times 120 85)
  = [ [space; space; bullet; space] ++ lit "code-reviewer"
      ++ times space 17 ++ [space] ++ times 120 70;
      times space 35 ++ times 120 15 ].
Proof.
  refine (proj1
    (description_of_85_wraps_once (lit "code-reviewer") (times 120 85) _)).
  reflexivity.
Defined.

(** C2, as it is worded, fails: the second line is not 30 spaces followed
    by the remaining 15 characters. *)
Lemma indent_of_30_is_not_printed :
  length (times 120 85) = 85%nat
  /\ ~ (exists first,
          entry_lines (lit "code-reviewer", times 120 85)
          = [first; times space 30 ++ skipn 70 (times 120 85)]).
Proof.
  split; [reflexivity|].
  intros [first E]. vm_compute in E.
  injection E as _ E. discriminate E.
Qed.

(** ** Worked examples *)

(** A heading and one entry under it. *)
Example heading_then_entry :
  lookup
    (parse_content
       (lit "### Development & Architecture" ++ [newline]
        ++ lit "- **[code-reviewer](link)** - Reviews code for quality."))
    (lit "Development & Architecture")
  = [(lit "code-reviewer", lit "Reviews code for quality.")].
Proof. vm_compute; reflexivity. Qed.

(** The pattern is tried on the stripped line: white space around the
    line is no part of the description. *)
Example surrounding_space_is_stripped :
  step (initial_agents, Some (lit "Documentation"))
       (lit "   - **[api-documenter](docs/api.md)** - Writes API docs.  ")
  = (dict_append initial_agents (lit "Documentation")
       (lit "api-documenter", lit "Writes API docs."),
     Some (lit "Documentation")).
Proof. vm_compute; reflexivity. Qed.

(** Two headings for one category: the entries accumulate in the order of
    the document. *)
Example repeated_heading_accumulates :
  lookup
    (parse_content
       (lit "### Data & AI" ++ [newline]
        ++ lit "- **[a](x)** - first" ++ [newline]
        ++ lit "### Documentation" ++ [newline]
        ++ lit "- **[b](y)** - second" ++ [newline]
        ++ lit "### Data & AI tools" ++ [newline]
        ++ lit "- **[c](z)** - third"))
    (lit "Data & AI")
  = [(lit "a", lit "first"); (lit "c", lit "third")].
Proof. vm_compute; reflexivity. Qed.

(** A description of 141 characters takes three calls of [print]. *)
Example long_description_wraps_twice :
  entry_lines (lit "x", times 120 141)
  = [ [space; space; bullet; space] ++ lit "x" ++ times space 29
      ++ [space] ++ times 120 70;
      times space 35 ++ times 120 70;
      times space 35 ++ [120] ].
Proof. vm_compute; reflexivity. Qed.

(** * Further properties of the extractor *)

Lemma no_char_by_eval (c : char) (s : str) :
  forallb (fun x => negb (x =? c)) s = true -> no_char c s.
Proof.
  intros H. apply Forall_forall. intros x Hx.
  rewrite forallb_forall in H. specialize (H x Hx).
  apply negb_true_iff in H. now apply N.eqb_neq.
Qed.

Lemma spaces_by_eval (s : str) :
  forallb is_space s = true -> Forall (fun c => is_space c = true) s.
Proof.
  intros H. apply Forall_forall. intros x Hx.
  rewrite forallb_forall in H. now apply H.
Qed.

Lemma no_char_entry_text (c : char) (name link desc : str) :
  no_char c (entry_text name link desc) ->
  no_char c name /\ no_char c link /\ no_char c desc.
Proof.
  rewrite entry_text_cons. unfold no_char. rewrite !Forall_app.
  intuition.
Qed.

(** On a text without newline the description group takes all that is
    left: nothing follows the match. *)
Lemma agent_re_exact (s : str) (m : list str) :
  no_char newline s ->
  Re.rmatch agent_re s = Some m ->
  exists name link desc,
    s = entry_text name link desc /\ m = [name; desc]
    /\ (name <> [] /\ no_char 93 name)
    /\ (link <> [] /\ no_char 41 link)
    /\ desc <> [].
Proof.
  intros Hnl H. pose proof H as H'.
  apply agent_re_sound in H'
    as (n & l & d & rest & E & -> & [Hn1 Hn2] & [Hl1 Hl2] & [Hd1 _]).
  rewrite entry_text_app in E. rewrite E in Hnl, H.
  apply no_char_entry_text in Hnl as (_ & _ & Hnl).
  rewrite agent_re_complete in H; trivial.
  - injection H as H. rewrite <- (app_nil_r d) in H at 2.
    apply app_inv_head in H. subst rest. rewrite app_nil_r in E.
    now exists n, l, d.
  - destruct d; [congruence|discriminate].
Qed.

(** X1: on a text without newline (every stripped line is one) the
    pattern matches exactly the texts [- **[name](link)** - desc] with a
    non-empty name free of closing brackets, a non-empty link free of
    closing parentheses and a non-empty description; the groups are the
    name and the whole of the description. *)
Theorem agent_re_matches_exactly_entries (s : str) (m : list str) :
  no_char newline s ->
  Re.rmatch agent_re s = Some m
  <-> exists name link desc,
        m = [name; desc] /\ s = entry_text name link desc
        /\ name <> [] /\ no_char 93 name
        /\ link <> [] /\ no_char 41 link
        /\ desc <> [].
Proof.
  intros Hnl. split.
  - intros H. apply agent_re_exact in H
      as (n & l & d & E & -> & [Hn1 Hn2] & [Hl1 Hl2] & Hd); trivial.
    exists n, l, d. repeat split; trivial.
  - intros (n & l & d & -> & -> & Hn1 & Hn2 & Hl1 & Hl2 & Hd).
    apply agent_re_complete; trivial.
    now apply no_char_entry_text in Hnl.
Qed.

Lemma agent_re_matches_exactly_entries_witness :
  Re.rmatch agent_re (lit "- **[a](b)** - see [x](y)** - z")
  = Some [lit "a"; lit "see [x](y)** - z"]
  <-> exists name link desc,
        [lit "a"; lit "see [x](y)** - z"] = [name; desc]
        /\ lit "- **[a](b)** - see [x](y)** - z" = entry_text name link desc
        /\ name <> [] /\ no_char 93 name
        /\ link <> [] /\ no_char 41 link
        /\ desc <> [].
Proof.
  apply (agent_re_matches_exactly_entries
           (lit "- **[a](b)** - see [x](y)** - z")
           [lit "a"; lit "see [x](y)** - z"]).
  apply no_char_by_eval. vm_compute; reflexivity.
Defined.

(** What a line that is no heading does while a category is current. *)
Lemma step_line_entry (agents : catalog) (cur line : str) :
  is_heading line = false ->
  truthy cur = true ->
  step (agents, Some cur) line
  = (match line_entry line with
     | Some e => dict_append agents cur e
     | None => agents
     end, Some cur).
Proof.
  intros Hh Ht. unfold step, line_entry. rewrite Hh, Ht. cbn [andb].
  destruct (startswith (strip line) entry_marker); [|reflexivity].
  now destruct (Re.rmatch agent_re (strip line)).
Qed.

Lemma heading_line_entry (line : str) :
  is_heading line = true -> line_entry line = None.
Proof.
  intros H. unfold is_heading in H. apply andb_true_iff in H as [H _].
  unfold line_entry. now rewrite (heading_not_entry line H).
Qed.

Lemma heading_category_keys (a b : catalog) (line : str) :
  keys a = keys b -> heading_category a line = heading_category b line.
Proof. unfold heading_category. now intros ->. Qed.

Lemma section_run (body : list str) (agents : catalog) (cur : str) :
  keys agents = categories ->
  In cur categories ->
  Forall (fun l => recognized_heading l = false) body ->
  let st := run_lines (agents, Some cur) body in
  snd st = Some cur
  /\ keys (fst st) = categories
  /\ lookup (fst st) cur = lookup agents cur ++ section_entries body
  /\ forall k, k <> cur -> lookup (fst st) k = lookup agents k.
Proof.
  intros Hk Hin Hb. revert agents Hk.
  assert (Ht : truthy cur = true).
  { exact (proj1 (Forall_forall _ _) categories_truthy cur Hin). }
  unfold run_lines.
  induction Hb as [|l body Hl _ IH]; intros agents Hk; cbn [fold_left].
  - cbn. rewrite app_nil_r. auto.
  - assert (Hstep : step (agents, Some cur) l
                    = (match line_entry l with
                       | Some e => dict_append agents cur e
                       | None => agents
                       end, Some cur)).
    { destruct (is_heading l) eqn:Hh.
      - rewrite (heading_line_entry l Hh). unfold step. rewrite Hh.
        unfold recognized_heading in Hl. rewrite Hh in Hl. cbn [andb] in Hl.
        rewrite (heading_category_keys agents initial_agents l)
          by (now rewrite Hk).
        now destruct (heading_category initial_agents l).
      - now apply step_line_entry. }
    rewrite Hstep. cbn [section_entries flat_map].
    fold (section_entries body).
    destruct (line_entry l) as [e|].
    + destruct (IH (dict_append agents cur e)) as (H1 & H2 & H3 & H4).
      { now rewrite keys_dict_append. }
      split; [assumption|split; [assumption|split]].
      * rewrite H3, lookup_dict_append_same by (now rewrite Hk).
        now rewrite <- app_assoc.
      * intros k Hne. rewrite H4 by assumption.
        now apply lookup_dict_append_other.
    + now apply IH.
Qed.

(** X2: after a heading that sets the category [cat], and up to the next
    recognized heading, [current_category] stays [cat]; the entries the
    lines of the section yield are appended to the list of [cat], in the
    order of the lines, and no other list changes. *)
Theorem section_entries_go_to_its_category
        (pre body : list str) (heading cat : str) :
  is_heading heading = true ->
  heading_category initial_agents heading = Some cat ->
  Forall (fun l => recognized_heading l = false) body ->
  let before := fst (run_lines initial_state pre) in
  let st := run_lines initial_state (pre ++ heading :: body) in
  snd st = Some cat
  /\ lookup (fst st) cat = lookup before cat ++ section_entries body
  /\ forall k, k <> cat -> lookup (fst st) k = lookup before k.
Proof.
  intros Hh Hc Hb before st. subst st.
  change (pre ++ heading :: body) with (pre ++ [heading] ++ body).
  rewrite app_assoc, !run_lines_app.
  pose proof (keys_run_lines pre initial_state) as Hk.
  change (keys (fst initial_state)) with categories in Hk.
  fold before in Hk.
  destruct (run_lines initial_state pre) as [agents c0] eqn:E.
  cbn [fst] in *. subst before.
  assert (Hstep : run_lines (agents, c0) [heading] = (agents, Some cat)).
  { unfold run_lines. cbn [fold_left]. unfold step. rewrite Hh.
    rewrite (heading_category_keys agents initial_agents heading)
      by (now rewrite Hk).
    now rewrite Hc. }
  rewrite Hstep.
  apply heading_category_in in Hc as [Hin _].
  destruct (section_run body agents cat Hk Hin Hb) as (H1 & _ & H3 & H4).
  auto.
Qed.

Lemma section_entries_go_to_its_category_witness :
  lookup (fst (run_lines initial_state section_sample)) (lit "Data & AI")
  = [] ++ [ (lit "data-engineer", lit "Builds pipelines.");
            (lit "ml-engineer", lit "Ships models.") ].
Proof.
  refine (proj1 (proj2
    (section_entries_go_to_its_category
       [] (skipn 1 section_sample)
       (lit "### Tools for Data & AI") (lit "Data & AI") _ _ _))).
  - vm_compute; reflexivity.
  - vm_compute; reflexivity.
  - apply Forall_by_existsb; vm_compute; reflexivity.
Defined.

Lemma step_ignores (st : state) (line : str) :
  is_heading line = false -> entry_shaped line = false -> step st line = st.
Proof.
  intros Hh He. destruct st as [agents cur]. unfold step. rewrite Hh.
  destruct cur as [c|]; [|reflexivity].
  unfold entry_shaped in He. now rewrite He, andb_false_r.
Qed.

(** X3: lines that neither qualify as a heading nor start, once stripped,
    with the entry marker have no effect: leaving them out of the
    document gives the same state and so the same catalog. *)
Theorem prose_lines_are_ignored (st : state) (lines : list str) :
  run_lines st (filter (fun l => is_heading l || entry_shaped l) lines)
  = run_lines st lines.
Proof.
  unfold run_lines. revert st.
  induction lines as [|l lines IH]; intros st; [reflexivity|].
  cbn [filter fold_left].
  destruct (is_heading l) eqn:Hh; cbn [orb fold_left]; [apply IH|].
  destruct (entry_shaped l) eqn:He; cbn [fold_left]; [apply IH|].
  now rewrite (step_ignores st l Hh He).
Qed.

Lemma total_dict_append (agents : catalog) (k : str) (e : entry) :
  (total_entries (dict_append agents k e) <= S (total_entries agents))%nat.
Proof.
  unfold total_entries.
  induction agents as [|[k' v] rest IH]; simpl; [lia|].
  destruct (Py.eqb k' k); simpl; rewrite !length_app in *; simpl; lia.
Qed.

Lemma total_step (st : state) (line : str) :
  (total_entries (fst (step st line))
   <= total_entries (fst st) + (if entry_shaped line then 1 else 0))%nat.
Proof.
  destruct (entry_shaped line) eqn:He.
  - destruct st as [agents cur]. unfold step.
    destruct (is_heading line).
    + destruct (heading_category agents line); simpl; lia.
    + destruct cur as [c|]; [|simpl; lia].
      destruct (truthy c && startswith (strip line) entry_marker);
        [|simpl; lia].
      destruct (Re.rmatch agent_re (strip line)); [|simpl; lia].
      cbn [fst]. pose proof (total_dict_append agents c
        (Re.group 1 l, Re.group 2 l)). lia.
  - rewrite step_keeps_catalog by exact He. lia.
Qed.

(** X4: every line adds one entry at most, and only a line that starts,
    once stripped, with the entry marker adds one: the catalog holds no
    more entries than the file has such lines. *)
Theorem no_more_entries_than_entry_lines (content : str) :
  (total_entries (parse_content content)
   <= length (filter entry_shaped (split_nl content)))%nat
  /\ (total_entries (parse_content content)
      <= length (split_nl content))%nat.
Proof.
  assert (G : forall lines st,
             (total_entries (fst (run_lines st lines))
              <= total_entries (fst st)
                 + length (filter entry_shaped lines))%nat).
  { unfold run_lines. induction lines as [|l lines IH]; intros st.
    - simpl. lia.
    - cbn [fold_left filter]. specialize (IH (step st l)).
      pose proof (total_step st l).
      destruct (entry_shaped l); simpl length; lia. }
  unfold parse_content.
  specialize (G (split_nl content) initial_state).
  change (total_entries (fst initial_state)) with 0%nat in G.
  pose proof (filter_length_le entry_shaped (split_nl content)).
  lia.
Qed.

Lemma rstrip_last (s : str) :
  rstrip s <> [] -> is_space (last (rstrip s) 0) = false.
Proof.
  induction s as [|c s IH]; simpl; [congruence|].
  destruct (rstrip s) as [|y r] eqn:E.
  - destruct (is_space c) eqn:Hc; [congruence|]. intros _. exact Hc.
  - intros _. change (last (c :: y :: r) 0) with (last (y :: r) 0).
    apply IH. discriminate.
Qed.

Lemma app_nonempty_r {A} (a b : list A) : b <> [] -> a ++ b <> [].
Proof. intros Hb E. apply app_eq_nil in E as [_ E]. contradiction. Qed.

Lemma last_app_r (a b : str) : b <> [] -> last (a ++ b) 0 = last b 0.
Proof.
  intros Hb. induction a as [|x a IHa]; [reflexivity|].
  simpl app. pose proof (app_nonempty_r a b Hb).
  destruct (a ++ b) eqn:E; [congruence|exact IHa].
Qed.

Lemma last_entry_text (name link desc : str) :
  desc <> [] -> last (entry_text name link desc) 0 = last desc 0.
Proof.
  intros Hd. rewrite entry_text_cons.
  repeat rewrite last_app_r by (repeat apply app_nonempty_r; exact Hd).
  reflexivity.
Qed.

(** A property every matched line grants holds of every stored entry. *)
Lemma parsed_entries_satisfy (P : entry -> Prop) :
  (forall line m,
     no_char newline line ->
     Re.rmatch agent_re (strip line) = Some m ->
     P (Re.group 1 m, Re.group 2 m)) ->
  forall content,
    Forall (fun item => Forall P (snd item)) (parse_content content).
Proof.
  intros HP content. unfold parse_content, run_lines.
  pose proof (PyFacts.split_nl_no_newline content) as Hnl.
  assert (H0 : Forall (fun item => Forall P (snd item)) (fst initial_state)).
  { unfold initial_state, initial_agents. cbn [fst].
    induction categories; simpl; repeat constructor; trivial. }
  revert H0. generalize initial_state.
  induction Hnl as [|l ls Hl _ IH]; intros st Hst; cbn [fold_left];
    [assumption|].
  apply IH. destruct st as [agents cur]. unfold step.
  destruct (is_heading l).
  - now destruct (heading_category agents l).
  - destruct cur as [c|]; [|assumption].
    destruct (truthy c && startswith (strip l) entry_marker); [|assumption].
    destruct (Re.rmatch agent_re (strip l)) as [m|] eqn:E; [|assumption].
    cbn [fst] in *. specialize (HP l m Hl E). clear E.
    induction Hst as [|[k' v] rest Hv Hrest IHr]; simpl; [constructor|].
    destruct (Py.eqb k' c); constructor; trivial.
    simpl in *. apply Forall_app. split; [assumption|now constructor].
Qed.

(** X5: every entry of the catalog has a non-empty name with no closing
    bracket and no newline in it, and a non-empty description with no
    newline in it that does not end in white space. *)
Theorem stored_entries_are_wellformed (content : str) :
  Forall (fun item => Forall wellformed_entry (snd item))
         (parse_content content).
Proof.
  apply parsed_entries_satisfy. intros line m Hnl Hm.
  pose proof (Forall_strip _ line Hnl) as Hs.
  apply agent_re_exact in Hm
    as (n & l & d & E & -> & [Hn1 Hn2] & _ & Hd); trivial.
  change (Re.group 1 [n; d]) with n. change (Re.group 2 [n; d]) with d.
  pose proof Hs as Hs'. rewrite E in Hs'.
  apply no_char_entry_text in Hs' as (Hnn & _ & Hdn).
  unfold wellformed_entry. cbn [fst snd]. repeat split; trivial.
  rewrite <- (last_entry_text n l d Hd), <- E.
  apply rstrip_last. fold (strip line). rewrite E. rewrite entry_text_cons.
  discriminate.
Qed.

Lemma split_nl_app (a b : str) :
  split_nl (a ++ newline :: b) = split_nl a ++ split_nl b.
Proof.
  induction a as [|c a IH]; [reflexivity|].
  simpl app. cbn [split_nl]. rewrite IH.
  destruct (c =? newline); [reflexivity|].
  pose proof (PyFacts.split_nl_nonempty a) as Hne.
  now destruct (split_nl a).
Qed.

(** X6: text appended to the file behind a newline only appends: the
    keys stay, and each list of the longer file's catalog begins with the
    list of the shorter file's catalog. *)
Theorem appended_text_only_appends (content more cat : str) :
  keys (parse_content (content ++ newline :: more))
  = keys (parse_content content)
  /\ exists extra,
       lookup (parse_content (content ++ newline :: more)) cat
       = lookup (parse_content content) cat ++ extra.
Proof.
  unfold parse_content. rewrite split_nl_app, run_lines_app. split.
  - now rewrite !keys_run_lines.
  - apply run_lines_grows.
Qed.

Lemma join_cons (l : str) (ls : list str) :
  ls <> [] -> join_nl (l :: ls) = l ++ newline :: join_nl ls.
Proof. destruct ls; [congruence | reflexivity]. Qed.

(** X7: [content.split('\n')] loses nothing: there is one more piece than
    there are newlines, and the pieces joined by newlines are the content
    again; the other way round, lines without newline, joined, split into
    themselves, so every such non-empty list of lines is the lines of a
    document. *)
Theorem split_nl_join_nl (content : str) :
  join_nl (split_nl content) = content
  /\ length (split_nl content) = S (count_occ N.eq_dec content newline)
  /\ forall lines,
       lines <> [] ->
       Forall (no_char newline) lines ->
       split_nl (join_nl lines) = lines.
Proof.
  split; [|split].
  - induction content as [|c s IH]; [reflexivity|].
    cbn [split_nl]. pose proof (PyFacts.split_nl_nonempty s) as Hne.
    destruct (c =? newline) eqn:E.
    + apply N.eqb_eq in E. subst c.
      rewrite join_cons by assumption. now rewrite IH.
    + destruct (split_nl s) as [|x xs]; [congruence|]. cbn [hd tl].
      rewrite <- IH. destruct xs; reflexivity.
  - induction content as [|c s IH]; [reflexivity|].
    cbn [split_nl count_occ]. pose proof (PyFacts.split_nl_nonempty s).
    destruct (N.eq_dec c newline) as [->|Hne].
    + rewrite N.eqb_refl. simpl. now rewrite IH.
    + apply N.eqb_neq in Hne. rewrite Hne.
      destruct (split_nl s); [congruence|]. exact IH.
  - intros lines Hne Hl. clear content.
    induction Hl as [|l ls Hl Hls IH]; [congruence|].
    assert (Hone : split_nl l = [l]).
    { clear -Hl. induction Hl as [|c l Hc _ IHl]; [reflexivity|].
      cbn [split_nl]. apply N.eqb_neq in Hc. now rewrite Hc, IHl. }
    destruct ls as [|l' ls'].
    + exact Hone.
    + rewrite join_cons by discriminate.
      rewrite split_nl_app, Hone, IH by discriminate. reflexivity.
Qed.

Lemma split_nl_join_nl_witness :
  split_nl (join_nl section_sample) = section_sample.
Proof.
  refine (proj2 (proj2 (split_nl_join_nl [])) section_sample _ _).
  - discriminate.
  - repeat (constructor; [apply no_char_by_eval; vm_compute; reflexivity|]).
    constructor.
Defined.

(** * Further properties of the presenter *)

(** Induction along the turns of the [while] loop. *)
Lemma wrap_loop_rect (P : str -> list str -> Prop) :
  P [] [] ->
  (forall c r,
     P (skipn 70 (c :: r)) (wrap_loop (skipn 70 (c :: r))) ->
     P (c :: r)
       (continuation_line (c :: r) :: wrap_loop (skipn 70 (c :: r)))) ->
  forall remaining, P remaining (wrap_loop remaining).
Proof.
  intros H0 Hs remaining.
  assert (G : forall n r, (length r <= n)%nat -> P r (wrap_loop r)).
  { induction n as [|n IH]; intros [|c r] Hlen; simp wrap_loop;
      try (simpl in Hlen; lia).
    apply Hs. apply IH.
    pose proof (length_skipn 70 (c :: r)). simpl in *. lia. }
  now apply (G (length remaining)).
Qed.

Lemma wrap_loop_chunks (remaining : str) :
  exists chunks,
    wrap_loop remaining = map (app (times space 35)) chunks
    /\ concat chunks = remaining
    /\ Forall (fun ch => (1 <= length ch <= 70)%nat) chunks.
Proof.
  apply (wrap_loop_rect (fun r out =>
    exists chunks,
      out = map (app (times space 35)) chunks
      /\ concat chunks = r
      /\ Forall (fun ch => (1 <= length ch <= 70)%nat) chunks)).
  - now exists [].
  - intros c r (chunks & E & Hc & Hf).
    exists (firstn 70 (c :: r) :: chunks). rewrite E. repeat split.
    + cbn [concat]. rewrite Hc. apply firstn_skipn.
    + constructor; [|assumption]. rewrite length_firstn. simpl length. lia.
Qed.

(** X8: wrapping loses and repeats nothing.  The calls of [print] for an
    entry are the first line followed by continuation lines of 35 spaces
    and a slice each; the slices have 1 to 70 characters, and the first 70
    characters of the description followed by the slices are the
    description. *)
Theorem wrapped_slices_make_up_the_description (agent_name agent_desc : str) :
  exists chunks,
    entry_lines (agent_name, agent_desc)
    = ([space; space; bullet; space] ++ ljust 30 agent_name ++ [space]
       ++ firstn 70 agent_desc)
      :: map (app (times space 35)) chunks
    /\ firstn 70 agent_desc ++ concat chunks = agent_desc
    /\ Forall (fun ch => (1 <= length ch <= 70)%nat) chunks.
Proof.
  fold (entry_first_line agent_name agent_desc).
  unfold entry_lines. destruct (70 <? length agent_desc)%nat eqn:E.
  - destruct (wrap_loop_chunks (skipn 70 agent_desc))
      as (chunks & H1 & H2 & H3).
    exists chunks. rewrite H1, H2. repeat split; trivial.
    apply firstn_skipn.
  - exists []. apply Nat.ltb_ge in E. cbn [map concat].
    rewrite app_nil_r, firstn_all2 by assumption. repeat split. constructor.
Qed.

Lemma ceil70_step (n : nat) :
  (1 <= n)%nat -> ((n + 69) / 70 = S ((n - 70 + 69) / 70))%nat.
Proof.
  intros Hn. destruct (Nat.le_gt_cases 70 n) as [H|H].
  - replace (n + 69)%nat with ((n - 70 + 69) + 1 * 70)%nat by lia.
    rewrite Nat.div_add by lia. lia.
  - replace (n - 70 + 69)%nat with 69%nat by lia.
    change (69 / 70)%nat with 0%nat.
    symmetry. apply (Nat.div_unique _ _ _ (n - 1)); lia.
Qed.

Lemma wrap_loop_length (remaining : str) :
  length (wrap_loop remaining) = ((length remaining + 69) / 70)%nat.
Proof.
  apply (wrap_loop_rect (fun r out =>
    length out = ((length r + 69) / 70)%nat)); [reflexivity|].
  intros c r IH. cbn [length] in *. rewrite IH.
  pose proof (length_skipn 70 (c :: r)) as Hl. cbn [length] in Hl.
  rewrite Hl. symmetry. apply ceil70_step. lia.
Qed.

(** X9: an entry is printed by one call of [print] when its description
    has 70 characters or fewer (none included), and by one call for every
    70 characters, the last ones possibly fewer, when it has more. *)
Theorem entry_takes_one_line_per_70_characters (agent_name agent_desc : str) :
  length (entry_lines (agent_name, agent_desc))
  = Nat.max 1 ((length agent_desc + 69) / 70).
Proof.
  unfold entry_lines. cbn [length].
  destruct (70 <? length agent_desc)%nat eqn:E.
  - apply Nat.ltb_lt in E. rewrite wrap_loop_length, length_skipn.
    rewrite (ceil70_step (length agent_desc)) by lia. lia.
  - apply Nat.ltb_ge in E. cbn [length].
    destruct (length agent_desc) as [|n] eqn:L; [reflexivity|].
    assert (H : ((S n + 69) / 70 = 1)%nat).
    { symmetry. apply (Nat.div_unique _ _ _ n); lia. }
    rewrite H. reflexivity.
Qed.

(** X10: the first line of an entry has 4 characters, the name in a
    field of 30 or, when it is longer, in full, a space and 70 characters
    of the description at most; with a name of 30 characters or fewer no
    line of the entry is longer than 105 characters. *)
Theorem entry_lines_fit_105_columns (agent_name agent_desc : str) :
  length (entry_first_line agent_name agent_desc)
  = (4 + Nat.max 30 (length agent_name) + 1
     + Nat.min 70 (length agent_desc))%nat
  /\ ((length agent_name <= 30)%nat ->
      Forall (fun l => (length l <= 105)%nat)
             (entry_lines (agent_name, agent_desc))).
Proof.
  assert (L : length (entry_first_line agent_name agent_desc)
              = (4 + Nat.max 30 (length agent_name) + 1
                 + Nat.min 70 (length agent_desc))%nat).
  { unfold entry_first_line, ljust.
    rewrite !length_app, repeat_length, length_firstn. simpl length. lia. }
  split; [exact L|]. intros Hn.
  unfold entry_lines. constructor; [rewrite L; lia|].
  destruct (70 <? length agent_desc)%nat; [|constructor].
  destruct (wrap_loop_chunks (skipn 70 agent_desc)) as (chunks & E & _ & Hf).
  rewrite E. apply Forall_map. eapply Forall_impl; [|exact Hf].
  intros ch Hch. cbn beta in *. unfold times.
  rewrite length_app, repeat_length. lia.
Qed.

Lemma entry_lines_fit_105_columns_witness :
  Forall (fun l => (length l <= 105)%nat)
         (entry_lines (lit "code-reviewer", times 120 200)).
Proof.
  refine (proj2
    (entry_lines_fit_105_columns (lit "code-reviewer") (times 120 200)) _).
  vm_compute. repeat constructor.
Defined.

Lemma filter_flat_map {A B} (p : B -> bool) (f : A -> list B) (l : list A) :
  filter p (flat_map f l) = flat_map (fun x => filter p (f x)) l.
Proof.
  induction l as [|x l IH]; [reflexivity|].
  cbn [flat_map]. now rewrite filter_app, IH.
Qed.

Lemma filter_none {A} (p : A -> bool) (l : list A) :
  Forall (fun x => p x = false) l -> filter p l = [].
Proof.
  induction 1 as [|x l Hx _ IH]; [reflexivity|].
  cbn [filter]. now rewrite Hx.
Qed.

Lemma entry_lines_no_banner (e : entry) :
  Forall (fun l => is_banner l = false) (entry_lines e).
Proof.
  eapply Forall_impl; [|apply entry_lines_head].
  intros [|x l] H; [reflexivity|]. simpl in H. subst x. reflexivity.
Qed.

Lemma category_lines_banner (category : str) (agent_list : list entry) :
  filter is_banner (category_lines (category, agent_list))
  = if truthy_list agent_list then [banner category] else [].
Proof.
  unfold category_lines. destruct agent_list as [|e l]; [reflexivity|].
  cbn [filter truthy_list].
  change (is_banner (newline :: lit "### " ++ category)) with true.
  change (is_banner (times 45 40)) with false. cbn iota.
  rewrite filter_none; [reflexivity|].
  apply Forall_flat_map, Forall_forall. intros e' _.
  apply entry_lines_no_banner.
Qed.

Lemma lookup_cons_other (k k' : str) (v : list entry) (rest : catalog) :
  k' <> k -> lookup ((k', v) :: rest) k = lookup rest k.
Proof. intros H. simpl. now rewrite PyFacts.eqb_neq. Qed.

(** With distinct keys, the items are the keys with what [lookup] finds. *)
Lemma items_by_lookup (agents : catalog) :
  NoDup (keys agents) ->
  agents = map (fun k => (k, lookup agents k)) (keys agents).
Proof.
  induction agents as [|[k v] rest IH]; [reflexivity|].
  intros Hnd. inversion Hnd as [|k0 ks Hnot Hrest]; subst.
  cbn [keys map fst]. f_equal.
  - simpl. now rewrite PyFacts.eqb_refl.
  - rewrite (IH Hrest) at 1. apply map_ext_in. intros k' Hin.
    rewrite lookup_cons_other; [reflexivity|].
    intros ->. contradiction.
Qed.

(** X11: the sub-banners appear in the fixed order of the category list,
    whatever the order of the headings in the file, one for each category
    that has an entry and none for a category that has none. *)
Theorem banners_follow_the_category_list (fs : filesystem) (content : str) :
  fs readme_path = Some content ->
  filter is_banner (display_agents fs)
  = map banner
        (filter (fun cat => truthy_list (lookup (parse_content content) cat))
                categories).
Proof.
  intros H.
  assert (K : keys (parse_content content) = categories).
  { unfold parse_content. now rewrite keys_run_lines. }
  assert (D : display_agents fs = report (parse_content content)).
  { unfold display_agents, parse_readme. rewrite H.
    destruct (parse_content content); [discriminate K | reflexivity]. }
  rewrite D. unfold report. cbn [filter].
  change (is_banner title_line) with false.
  change (is_banner rule_line) with false. cbn iota.
  rewrite filter_app.
  change (filter is_banner closing_lines) with (@nil str).
  rewrite app_nil_r, filter_flat_map.
  assert (Hnd : NoDup (keys (parse_content content))).
  { rewrite K. apply categories_nodup. }
  rewrite (items_by_lookup _ Hnd) at 1. rewrite K. clear K Hnd.
  induction categories as [|c cs IH]; [reflexivity|].
  cbn [map flat_map filter]. rewrite category_lines_banner, IH.
  now destruct (truthy_list (lookup (parse_content content) c)).
Qed.

Lemma banners_follow_the_category_list_witness :
  filter is_banner (display_agents (fun _ => Some shuffled_sample))
  = map banner
        (filter (fun cat =>
                   truthy_list (lookup (parse_content shuffled_sample) cat))
                categories).
Proof.
  apply (banners_follow_the_category_list
           (fun _ => Some shuffled_sample) shuffled_sample).
  reflexivity.
Defined.

(** X12: a file without a recognized heading, or without a line that
    starts with the entry marker, prints the ten fixed calls only: title,
    rule and the eight closing lines. *)
Theorem file_without_entries_prints_the_frame (fs : filesystem) (content : str) :
  fs readme_path = Some content ->
  Forall (fun l => recognized_heading l = false) (split_nl content)
  \/ Forall (fun l => entry_shaped l = false) (split_nl content) ->
  parse_content content = initial_agents
  /\ display_agents fs = title_line :: rule_line :: closing_lines
  /\ length (display_agents fs) = 10%nat.
Proof.
  intros H Hl.
  assert (E : parse_content content = initial_agents).
  { unfold parse_content. destruct Hl as [Hl|Hl].
    - now rewrite (unrecognized_run _ Hl).
    - now rewrite (no_entry_run _ initial_state Hl). }
  unfold display_agents, parse_readme. rewrite H, E. repeat split.
Qed.

Lemma file_without_entries_prints_the_frame_witness :
  display_agents (fun _ => Some prose_sample)
  = title_line :: rule_line :: closing_lines.
Proof.
  refine (proj1 (proj2
    (file_without_entries_prints_the_frame
       (fun _ => Some prose_sample) prose_sample _ _))).
  - reflexivity.
  - left. apply Forall_by_existsb; vm_compute; reflexivity.
Defined.

(** * Further properties of the line tests *)

Lemma lstrip_all_spaces (s : str) :
  Forall (fun c => is_space c = true) s -> lstrip s = [].
Proof.
  induction 1 as [|c s Hc _ IH]; [reflexivity|]. simpl. now rewrite Hc.
Qed.

Lemma rstrip_trail (s trail : str) :
  Forall (fun c => is_space c = true) trail -> rstrip (s ++ trail) = rstrip s.
Proof.
  intros Ht. induction s as [|c s IH]; simpl.
  - now apply PyFacts.rstrip_spaces.
  - now rewrite IH.
Qed.

Lemma strip_spaces_around (lead line trail : str) :
  Forall (fun c => is_space c = true) lead ->
  Forall (fun c => is_space c = true) trail ->
  strip (lead ++ line ++ trail) = strip line.
Proof.
  intros Hl Ht. unfold strip. rewrite PyFacts.lstrip_spaces by assumption.
  induction line as [|c line IH]; simpl.
  - now rewrite (lstrip_all_spaces trail Ht).
  - destruct (is_space c); [exact IH|].
    now apply (rstrip_trail (c :: line)).
Qed.

(** X13: white space before and after a line does not change the entry
    it yields, and a line that is no heading with or without it is
    treated the same with it; but a heading must start in the first
    column: behind white space, a line never changes
    [current_category]. *)
Theorem entries_ignore_surrounding_space_headings_do_not
        (st : state) (lead line trail : str) :
  Forall (fun c => is_space c = true) lead ->
  Forall (fun c => is_space c = true) trail ->
  line_entry (lead ++ line ++ trail) = line_entry line
  /\ (is_heading line = false ->
      is_heading (lead ++ line ++ trail) = false ->
      step st (lead ++ line ++ trail) = step st line)
  /\ (lead <> [] ->
      is_heading (lead ++ line ++ trail) = false
      /\ snd (step st (lead ++ line ++ trail)) = snd st).
Proof.
  intros Hl Ht.
  pose proof (strip_spaces_around lead line trail Hl Ht) as Hs.
  split; [|split].
  - unfold line_entry. now rewrite Hs.
  - intros H1 H2. destruct st as [agents cur]. unfold step.
    now rewrite H1, H2, Hs.
  - intros Hne.
    assert (Hh : is_heading (lead ++ line ++ trail) = false).
    { apply not_heading. destruct Hl as [|c lead Hc _]; [congruence|].
      now apply space_is_not_hash. }
    split; [exact Hh|].
    destruct st as [agents cur]. unfold step. rewrite Hh.
    destruct cur as [c|]; [|reflexivity].
    destruct (truthy c && startswith _ entry_marker); [|reflexivity].
    now destruct (Re.rmatch agent_re _).
Qed.

Lemma entries_ignore_surrounding_space_headings_do_not_witness :
  snd (step (initial_agents, None) (lit "  ### Data & AI ")) = None.
Proof.
  refine (proj2 (proj2 (proj2
    (entries_ignore_surrounding_space_headings_do_not
       (initial_agents, None) (lit "  ") (lit "### Data & AI") (lit " ")
       _ _)) _)).
  - apply spaces_by_eval; reflexivity.
  - apply spaces_by_eval; reflexivity.
  - discriminate.
Defined.

Lemma contains_infix (sub s : str) :
  contains sub s = true <-> exists a b, s = a ++ sub ++ b.
Proof.
  split.
  - induction s as [|x s IH]; cbn [contains]; intros H;
      apply orb_true_iff in H as [H|H]; try discriminate.
    + apply PyFacts.startswith_inv in H as [t E]. now exists [], t.
    + apply PyFacts.startswith_inv in H as [t E]. now exists [], t.
    + destruct (IH H) as (a & b & ->). now exists (x :: a), b.
  - intros (a & b & ->). induction a as [|x a IH].
    + destruct (sub ++ b) eqn:E; cbn [app contains]; rewrite <- ?E;
        now rewrite PyFacts.startswith_app.
    + cbn [app contains]. rewrite IH. apply orb_true_r.
Qed.

Lemma find_first_iff {A} (f : A -> bool) (l : list A) (x : A) :
  find f l = Some x
  <-> exists before after,
        l = before ++ x :: after /\ f x = true
        /\ Forall (fun y => f y = false) before.
Proof.
  split.
  - induction l as [|y l IH]; [discriminate|]. cbn [find].
    destruct (f y) eqn:E.
    + intros [= ->]. exists [], l. repeat split; trivial.
    + intros H. destruct (IH H) as (before & after & -> & Hx & Hb).
      exists (y :: before), after. repeat split; trivial.
      now constructor.
  - intros (before & after & -> & Hx & Hb). now apply find_first.
Qed.

(** X14: a qualifying heading sets the category [cat] exactly when the
    name [cat] stands somewhere in the line, character for character, and
    no name before it in the category list does; it leaves
    [current_category] alone exactly when no name of the list stands in
    the line. *)
Theorem heading_sets_the_first_name_it_contains
        (agents : catalog) (current : option str) (line cat : str) :
  keys agents = categories ->
  is_heading line = true ->
  (heading_category agents line = Some cat
   <-> exists before after,
         categories = before ++ cat :: after
         /\ (exists a b, line = a ++ cat ++ b)
         /\ Forall (fun c => ~ exists a b, line = a ++ c ++ b) before)
  /\ (heading_category agents line = None
      <-> Forall (fun c => ~ exists a b, line = a ++ c ++ b) categories)
  /\ step (agents, current) line
     = (agents, match heading_category agents line with
                | Some c => Some c
                | None => current
                end).
Proof.
  intros Hk Hh.
  assert (Neg : forall l,
             Forall (fun c => contains c line = false) l
             <-> Forall (fun c => ~ exists a b, line = a ++ c ++ b) l).
  { intros l. split; intros H; eapply Forall_impl; try exact H;
      cbn beta; intros c Hc.
    - intros Hex. apply contains_infix in Hex. congruence.
    - destruct (contains c line) eqn:E; [|reflexivity].
      apply contains_infix in E. contradiction. }
  unfold heading_category. rewrite Hk. split; [|split].
  - rewrite find_first_iff. split.
    + intros (before & after & E & Hc & Hb). exists before, after.
      repeat split; trivial; [now apply contains_infix | now apply Neg].
    + intros (before & after & E & Hc & Hb). exists before, after.
      repeat split; trivial; [now apply contains_infix | now apply Neg].
  - rewrite <- Neg. split.
    + intros H. apply Forall_forall. intros c Hin.
      now apply (find_none _ _ H).
    + intros H. destruct (find _ categories) as [c|] eqn:E; [|reflexivity].
      apply find_some in E as [Hin Hc].
      rewrite Forall_forall in H. rewrite (H c Hin) in Hc. discriminate.
  - unfold step, heading_category. rewrite Hh, Hk.
    now destruct (find _ categories).
Qed.

Lemma heading_sets_the_first_name_it_contains_witness :
  step (initial_agents, None) (lit "### My Documentation (Data & AI)")
  = (initial_agents,
     match heading_category initial_agents
             (lit "### My Documentation (Data & AI)") with
     | Some c => Some c
     | None => None
     end).
Proof.
  refine (proj2 (proj2
    (heading_sets_the_first_name_it_contains
       initial_agents None (lit "### My Documentation (Data & AI)")
       (lit "Data & AI") _ _))).
  - reflexivity.
  - vm_compute; reflexivity.
Defined.

(** * From the lines to the output *)

Lemma lookup_dict_append_in (agents : catalog) (k k0 : str) (e e0 : entry) :
  In e (lookup (dict_append agents k e0) k0) ->
  In e (lookup agents k0) \/ e = e0.
Proof.
  induction agents as [|[k' v] rest IH]; simpl; [tauto|].
  destruct (Py.eqb k' k); simpl.
  - destruct (Py.eqb k' k0); [|tauto].
    intros H. apply in_app_or in H as [H|[H|[]]]; auto.
  - destruct (Py.eqb k' k0); [tauto | exact IH].
Qed.

Lemma step_entry_origin (st : state) (line k : str) (e : entry) :
  In e (lookup (fst (step st line)) k) ->
  In e (lookup (fst st) k) \/ line_entry line = Some e.
Proof.
  destruct st as [agents cur]. unfold step, line_entry.
  destruct (is_heading line).
  - destruct (heading_category agents line); auto.
  - destruct cur as [c|]; [|auto].
    destruct (truthy c); cbn [andb]; [|auto].
    destruct (startswith (strip line) entry_marker); [|auto].
    destruct (Re.rmatch agent_re (strip line)) as [m|]; [|auto].
    cbn [fst]. intros H. apply lookup_dict_append_in in H as [H| ->]; auto.
Qed.

Lemma lookup_in_keys (agents : catalog) (k : str) (e : entry) :
  In e (lookup agents k) -> In (k, lookup agents k) agents.
Proof.
  induction agents as [|[k' v] rest IH]; simpl; [tauto|].
  destruct (Py.eqb k' k) eqn:E.
  - apply PyFacts.eqb_eq in E. subst. auto.
  - auto.
Qed.

(** X15: nothing is invented.  Every entry of the catalog stands under
    one of the nine category names and is the pair that some line of the
    file yields. *)
Theorem every_entry_comes_from_a_line (content cat : str) (e : entry) :
  In e (lookup (parse_content content) cat) ->
  In cat categories
  /\ exists line,
       In line (split_nl content) /\ line_entry line = Some e.
Proof.
  intros H. split.
  - apply lookup_in_keys in H.
    apply (in_map fst) in H. cbn [fst] in H.
    fold (keys (parse_content content)) in H.
    unfold parse_content in H. now rewrite keys_run_lines in H.
  - unfold parse_content, run_lines in H.
    assert (G : forall lines st,
               In e (lookup (fst (fold_left step lines st)) cat) ->
               In e (lookup (fst st) cat)
               \/ exists line, In line lines /\ line_entry line = Some e).
    { induction lines as [|l lines IH]; intros st Hin; cbn [fold_left] in *.
      - now left.
      - destruct (IH _ Hin) as [Hst|(line & Hl & He)].
        + apply step_entry_origin in Hst as [Hst|Hst]; [now left|].
          right. exists l. split; [now left | assumption].
        + right. exists line. split; [now right | assumption]. }
    destruct (G _ _ H) as [H0|H0]; [|exact H0].
    exfalso. cbn [fst initial_state] in H0. unfold initial_agents in H0.
    induction categories as [|c cs IH]; simpl in H0; [exact H0|].
    destruct (Py.eqb c cat); [exact H0 | now apply IH].
Qed.

Lemma every_entry_comes_from_a_line_witness :
  In (lit "Documentation") categories
  /\ exists line,
       In line (split_nl shuffled_sample)
       /\ line_entry line
          = Some (lit "docs-architect", lit "Writes manuals.").
Proof.
  apply (every_entry_comes_from_a_line
           shuffled_sample (lit "Documentation")
           (lit "docs-architect", lit "Writes manuals.")).
  vm_compute. left; reflexivity.
Defined.

(** X16: every entry of the catalog is printed: the output holds the
    sub-banner of its category and, behind it, the first line of the
    entry, with its name and the first 70 characters of its
    description. *)
Theorem every_stored_entry_is_printed
        (fs : filesystem) (content cat name desc : str) :
  fs readme_path = Some content ->
  In (name, desc) (lookup (parse_content content) cat) ->
  exists before between after,
    display_agents fs
    = before ++ banner cat :: between
      ++ ([space; space; bullet; space] ++ ljust 30 name ++ [space]
          ++ firstn 70 desc) :: after.
Proof.
  intros H Hin.
  assert (K : keys (parse_content content) = categories).
  { unfold parse_content. now rewrite keys_run_lines. }
  assert (D : display_agents fs = report (parse_content content)).
  { unfold display_agents, parse_readme. rewrite H.
    destruct (parse_content content); [discriminate K | reflexivity]. }
  rewrite D. unfold report.
  pose proof (lookup_in_keys _ _ _ Hin) as Hitem.
  remember (lookup (parse_content content) cat) as v eqn:Ev.
  apply in_split in Hitem as (items1 & items2 & E). rewrite E.
  apply in_split in Hin as (v1 & v2 & Hv).
  assert (Hc : category_lines (cat, v)
               = banner cat
                 :: (times 45 40 :: flat_map entry_lines v1)
                 ++ entry_first_line name desc
                 :: (tl (entry_lines (name, desc))
                     ++ flat_map entry_lines v2)).
  { rewrite Hv. unfold category_lines.
    destruct (v1 ++ (name, desc) :: v2) as [|e0 v0] eqn:Ee.
    - now destruct v1.
    - rewrite <- Ee, flat_map_app. reflexivity. }
  rewrite flat_map_app. cbn [flat_map]. rewrite Hc.
  exists (title_line :: rule_line :: flat_map category_lines items1).
  exists (times 45 40 :: flat_map entry_lines v1).
  exists ((tl (entry_lines (name, desc)) ++ flat_map entry_lines v2)
          ++ flat_map category_lines items2 ++ closing_lines).
  unfold entry_first_line.
  repeat first [rewrite <- app_assoc | rewrite <- app_comm_cons].
  reflexivity.
Qed.

Lemma every_stored_entry_is_printed_witness :
  exists before between after,
    display_agents (fun _ => Some shuffled_sample)
    = before ++ banner (lit "Documentation") :: between
      ++ ([space; space; bullet; space]
          ++ ljust 30 (lit "docs-architect") ++ [space]
          ++ firstn 70 (lit "Writes manuals.")) :: after.
Proof.
  apply (every_stored_entry_is_printed
           (fun _ => Some shuffled_sample) shuffled_sample).
  - reflexivity.
  - vm_compute. left; reflexivity.
Defined.
